(** * pdf_regression: calibration and regression testing of rendered PDF pages

    A shallow embedding of [scripts/pdf_regression.py].

    Modelling conventions.
    - Python [int] is [Z]; loop counters, image dimensions and pixel counts
      are [nat] (they are the values of [range]).
    - A Python [float] is the rational it denotes ([Q]).  [binary64] is the
      double nearest to a rational, ties to even, and every float operation
      is the exact operation followed by [binary64].  [diff_percent] gives
      the value of [100.0 * changed / total] before it is rounded, which is
      what the counting properties are about; [diff_percent_double] is the
      double the function returns, and it is what [run_test] compares with
      the allowed maximum and rounds for the summary.  Doubles are not
      bounded in exponent here: no value of this program comes near the
      overflow or the subnormal range.
    - An exception is a value of [exn]; a computation that may raise returns
      a [result].  Code that also touches the file system or prints is a
      function from the [World] before to the outcome and the [World] after,
      so that what was written before an exception is still visible.
    - A PIL image, once opened and converted to RGB, is its size and its
      raster in row-major order.
    - The file system is the set of directories and the image files in
      them, a file being named by its directory and its file name.  The
      scratch directory of [tempfile.TemporaryDirectory] is private to a run
      and removed at its end: what the run puts there is a local value. *)

From stdpp Require Import base option list strings gmap pretty.
From Stdlib Require Import ZArith QArith Qround Qpower Lia Lqa.

Set Default Proof Using "Type".
Local Open Scope nat_scope.

(** ** Messages and exceptions *)

(** A file below a directory, as in [baseline_dir / f"page_{page}.png"]. *)
Record FilePath := { parent : string; name : string }.

Global Instance FilePath_eq_dec : EqDecision FilePath.
Proof. solve_decision. Defined.

(** One entry of the [failures] list of [run_test]:
    - [MissingBaselineImage p] is [f"missing baseline image: {p}"];
    - [DiffExceeds page pct max_allowed] is
      [f"page {page} diff {pct:.3f}% exceeds {max_allowed:.3f}%"]. *)
Inductive Failure :=
| MissingBaselineImage (base_png : FilePath)
| DiffExceeds (page : Z) (pct max_allowed : Q).

(** The argument of a [SystemExit] raised by the script:
    - [TextInvariantFailures failed] is
      [f"Text invariant failure(s): {', '.join(failed)}"];
    - [BaselineDirectoryMissing d] is
      [f"Baseline directory missing: {d}. Run calibrate first."];
    - [PdfRegressionFailed failures] is
      ["PDF regression failed: " + "; ".join(failures)];
    - [PdfEndpointError detail] covers the three exits of [generate_pdf];
    - [MissingRequiredTool name] is [f"Missing required tool: {name}"]. *)
Inductive ExitMessage :=
| TextInvariantFailures (failed : list string)
| BaselineDirectoryMissing (baseline_dir : string)
| PdfRegressionFailed (failures : list Failure)
| PdfEndpointError (detail : string)
| MissingRequiredTool (name : string).

Inductive exn :=
| SystemExit (msg : ExitMessage)
| CalledProcessError (tool : string) (page : Z)
| FileNotFoundError (path : string)
| IndexError
| ZeroDivisionError.

Inductive result (A : Type) :=
| Ok (a : A)
| Raise (e : exn).
Arguments Ok {A} a.
Arguments Raise {A} e.

Global Instance result_ret : MRet result := fun A a => Ok a.
Global Instance result_bind : MBind result := fun A B f m =>
  match m with
  | Ok a => f a
  | Raise e => Raise e
  end.

(** ** Page rasters *)

Definition RGB : Type := Z * Z * Z.

Record Image := { size : nat * nat; raster : list RGB }.

Definition width (im : Image) : nat := fst (size im).
Definition height (im : Image) : nat := snd (size im).

(** What [Image.open(...).convert("RGB")] can return: PIL refuses to open an
    image whose width or height is not positive, and a loaded raster holds
    one triple per coordinate. *)
Definition valid_image (im : Image) : Prop :=
  0 < width im ∧ 0 < height im ∧ length (raster im) = width im * height im.

(** [im.load()[x, y]]: the pixel access object, indexed by column then row. *)
Definition load (im : Image) (x y : nat) : result RGB :=
  if (x <? width im) && (y <? height im) then
    match raster im !! (y * width im + x) with
    | Some p => Ok p
    | None => Raise IndexError
    end
  else Raise IndexError.

(** [max(abs(p1[0] - p2[0]), abs(p1[1] - p2[1]), abs(p1[2] - p2[2]))] *)
Definition max_channel_delta (p1 p2 : RGB) : Z :=
  let '(r1, g1, b1) := p1 in
  let '(r2, g2, b2) := p2 in
  Z.max (Z.max (Z.abs (r1 - r2)) (Z.abs (g1 - g2))) (Z.abs (b1 - b2)).

Definition Q_of_nat (n : nat) : Q := inject_Z (Z.of_nat n).

(** ** diff_percent *)

Section DiffPercent.
Variables (a_pixels b_pixels : nat → nat → result RGB).
Variable channel_threshold : Z.

(** The body of the inner loop, [for x in range(width)], at row [y];
    [changed] is the running counter. *)
Fixpoint scan_row (y : nat) (xs : list nat) (changed : nat) : result nat :=
  match xs with
  | [] => Ok changed
  | x :: xs' =>
      p1 ← a_pixels x y;
      p2 ← b_pixels x y;
      scan_row y xs'
        (if (channel_threshold <? max_channel_delta p1 p2)%Z
         then changed + 1 else changed)
  end.

(** The outer loop, [for y in range(height)]. *)
Fixpoint scan_rows (width : nat) (ys : list nat) (changed : nat) : result nat :=
  match ys with
  | [] => Ok changed
  | y :: ys' =>
      changed' ← scan_row y (seq 0 width) changed;
      scan_rows width ys' changed'
  end.
End DiffPercent.

Definition diff_percent (a b : Image) (channel_threshold : Z) : result Q :=
  if decide (size a ≠ size b) then Ok 100%Q
  else
    let a_pixels := load a in
    let b_pixels := load b in
    let '(width, height) := size a in
    let total := width * height in
    changed ← scan_rows a_pixels b_pixels channel_threshold width (seq 0 height) 0;
    if total =? 0 then Raise ZeroDivisionError
    else Ok (100 * Q_of_nat changed / Q_of_nat total)%Q.

(** ** Text invariants *)

(** Python's [needle in hay] on [str]: exact, case-sensitive substring test. *)
Fixpoint str_in (needle hay : string) : bool :=
  String.prefix needle hay ||
  match hay with
  | EmptyString => false
  | String _ hay' => str_in needle hay'
  end.

Record TextInvariants := {
  page1_footer_contains : string;
  page2_footer_contains : string;
  must_start_on_page2 : string
}.

(** The numbers are those written in the configuration file; [run_test]
    converts them with [float] and [int]. *)
Record Thresholds := {
  max_diff_pct_per_page : Q;
  pixel_channel_threshold : option Z
}.

Record Calibration := {
  generated_at_utc : string;
  calibration_text_invariants : list (string * bool);
  notes : string
}.

Record Config := {
  fixture : string;
  endpoint : string;
  pages : list Z;
  baseline_dir : string;
  thresholds : Thresholds;
  text_invariants : TextInvariants;
  calibration : option Calibration
}.

(** A rendered PDF, seen through the two poppler tools: the text of a page
    ([pdftotext -f page -l page]) and its raster ([pdftoppm -f page
    -singlefile -png]).  [None] is a nonzero exit of the tool. *)
Record Document := {
  pdftotext : Z → option string;
  pdftoppm : Z → option Image
}.

Definition extract_page_text (pdf : Document) (page : Z) : result string :=
  match pdftotext pdf page with
  | Some out => Ok out
  | None => Raise (CalledProcessError "pdftotext" page)
  end.

(** The raster [pdftoppm] produces for [page]; the caller decides where the
    file goes. *)
Definition extract_page_png (pdf : Document) (page : Z) : result Image :=
  match pdftoppm pdf page with
  | Some png => Ok png
  | None => Raise (CalledProcessError "pdftoppm" page)
  end.

(** The dict literal bound to [result] in [assert_text_invariants], in the
    order of its keys. *)
Definition text_flags (checks : TextInvariants) (p1 p2 : string) : list (string * bool) :=
  [ ("page1_footer_present", str_in (page1_footer_contains checks) p1);
    ("page2_footer_present", str_in (page2_footer_contains checks) p2);
    ("page1_no_how_this_report_works", negb (str_in (must_start_on_page2 checks) p1));
    ("page2_has_how_this_report_works", str_in (must_start_on_page2 checks) p2) ].

(** [[k for k, v in result.items() if not v]] *)
Fixpoint failed_keys (items : list (string * bool)) : list string :=
  match items with
  | [] => []
  | (k, v) :: items' => if v then failed_keys items' else k :: failed_keys items'
  end.

Definition assert_text_invariants (cfg : Config) (pdf : Document)
  : result (list (string * bool)) :=
  let checks := text_invariants cfg in
  p1 ← extract_page_text pdf 1;
  p2 ← extract_page_text pdf 2;
  let result := text_flags checks p1 p2 in
  let failed := failed_keys result in
  match failed with
  | _ :: _ => Raise (SystemExit (TextInvariantFailures failed))
  | [] => Ok result
  end.

(** ** The world of one run *)

Global Instance FilePath_countable : Countable FilePath :=
  inj_countable' (λ p, (parent p, name p))
                 (λ dn, {| parent := dn.1; name := dn.2 |})
                 (λ p, match p with Build_FilePath _ _ => eq_refl end).

(** A line written to standard output. *)
Inductive Output :=
| PrintedSummary (summary : list (string * Q))
| PrintedPassed
| PrintedCalibrated (baseline_dir : string).

(** What persists between runs: the directories, the image files in them,
    the configuration file, and what was printed. *)
Record World := {
  dirs : gset string;
  files : gmap FilePath Image;
  config_file : option Config;
  stdout : list Output
}.

(** What a run gets from outside: where the script lives, which tools are
    on the search path, what the PDF endpoint answers for a fixture, and the
    clock. *)
Record Env := {
  ROOT : string;
  which : string → bool;
  http_post : string → string → result Document;
  utcnow : string
}.

Definition IO (A : Type) : Type := World → result A * World.

Global Instance IO_ret : MRet IO := fun A a w => (Ok a, w).
Global Instance IO_bind : MBind IO := fun A B f m w =>
  match m w with
  | (Ok a, w') => f a w'
  | (Raise e, w') => (Raise e, w')
  end.

Definition raise {A} (e : exn) : IO A := fun w => (Raise e, w).
Definition lift {A} (r : result A) : IO A := fun w => (r, w).

(** [ROOT / rel]: an absolute right operand replaces the left one.  Paths
    are taken as written: what pathlib normalises (a trailing slash, ["./"],
    ["//"]) is not. *)
Definition path_join (root rel : string) : string :=
  if String.prefix "/" rel then rel else root +:+ "/" +:+ rel.

(** [d.mkdir(parents=True, exist_ok=True)].  [dirs] records the directory
    itself; the ancestors that [parents=True] creates are not tracked. *)
Definition mkdir (d : string) : IO unit := fun w =>
  (Ok tt, {| dirs := {[ d ]} ∪ dirs w; files := files w;
             config_file := config_file w; stdout := stdout w |}).

(** [d.exists()] for a directory path. *)
Definition dir_exists (d : string) : IO bool := fun w =>
  (Ok (bool_decide (d ∈ dirs w)), w).

(** Writing the raster [png] to the file [out_png]. *)
Definition write_png (out_png : FilePath) (png : Image) : IO unit := fun w =>
  (Ok tt, {| dirs := dirs w; files := <[ out_png := png ]> (files w);
             config_file := config_file w; stdout := stdout w |}).

(** [CONFIG_PATH.parent.mkdir(parents=True, exist_ok=True)], then the
    write of the whole file. *)
Definition save_config (env : Env) (cfg : Config) : IO unit := fun w =>
  (Ok tt, {| dirs := {[ ROOT env +:+ "/tests/pdf_regression" ]} ∪ dirs w;
             files := files w;
             config_file := Some cfg; stdout := stdout w |}).

Definition print (o : Output) : IO unit := fun w =>
  (Ok tt, {| dirs := dirs w; files := files w;
             config_file := config_file w; stdout := stdout w ++ [o] |}).

Definition generate_pdf (env : Env) (cfg : Config) : IO Document :=
  lift (http_post env (endpoint cfg) (fixture cfg)).

(** [f"page_{page}.png"] *)
Definition page_png_name (page : Z) : string := "page_" +:+ pretty page +:+ ".png".

(** [f"page_{page}_diff_pct"] *)
Definition summary_key (page : Z) : string := "page_" +:+ pretty page +:+ "_diff_pct".

(** ** Calibrate *)

(** [for page in cfg["pages"]]: rasterise the page into the baseline
    directory.  A failing [pdftoppm] raises and leaves the earlier files. *)
Fixpoint calibrate_pages (pdf : Document) (baseline_dir : string) (ps : list Z)
  : IO unit :=
  match ps with
  | [] => mret tt
  | page :: ps' =>
      let out_png := {| parent := baseline_dir; name := page_png_name page |} in
      png ← lift (extract_page_png pdf page);
      _ ← write_png out_png png;
      calibrate_pages pdf baseline_dir ps'
  end.

Definition calibration_notes : string :=
  "Baseline regenerated from current server-side PDF renderer.".

Definition set_calibration (cfg : Config) (c : Calibration) : Config :=
  {| fixture := fixture cfg; endpoint := endpoint cfg; pages := pages cfg;
     baseline_dir := baseline_dir cfg; thresholds := thresholds cfg;
     text_invariants := text_invariants cfg; calibration := Some c |}.

Definition run_calibrate (env : Env) (cfg : Config) : IO Z :=
  let baseline_dir := path_join (ROOT env) (baseline_dir cfg) in
  _ ← mkdir baseline_dir;
  pdf ← generate_pdf env cfg;
  text_flags ← lift (assert_text_invariants cfg pdf);
  _ ← calibrate_pages pdf baseline_dir (pages cfg);
  let cfg := set_calibration cfg
               {| generated_at_utc := utcnow env;
                  calibration_text_invariants := text_flags;
                  notes := calibration_notes |} in
  _ ← save_config env cfg;
  _ ← print (PrintedCalibrated baseline_dir);
  mret 0%Z.

(** ** Test *)

(** [summary[key] = value] on a dict kept in insertion order. *)
Fixpoint dict_set (key : string) (value : Q) (d : list (string * Q)) : list (string * Q) :=
  match d with
  | [] => [(key, value)]
  | (k, v) :: d' =>
      if decide (k = key) then (k, value) :: d' else (k, v) :: dict_set key value d'
  end.

(** Rounding to the nearest integer, ties to even. *)
Definition round_half_even (q : Q) : Z :=
  let f := Qfloor q in
  match (q - inject_Z f ?= 1 # 2)%Q with
  | Lt => f
  | Gt => (f + 1)%Z
  | Eq => if Z.even f then f else (f + 1)%Z
  end.

(** The decimal step of [round(pct, 4)]: the exact value of the double
    [pct] rounded to four decimals, ties to even. *)
Definition round4 (pct : Q) : Q := (round_half_even (pct * 10000) # 10000)%Q.

(** ** Doubles *)

(** The floor of the binary logarithm of a positive rational. *)
Definition ilog2 (x : Q) : Z :=
  let d := (Z.log2 (Qnum x) - Z.log2 (Zpos (Qden x)))%Z in
  if Qle_bool (2 ^ d) x then d else (d - 1)%Z.

(** The unit in the last place of a 53-bit significand at [x]. *)
Definition ulp (x : Q) : Q := (2 ^ (ilog2 x - 52))%Q.

(** The multiple of [u] nearest to [x], ties to the even multiple. *)
Definition round_to (u x : Q) : Q := (inject_Z (round_half_even (x / u)) * u)%Q.

(** The double nearest to [x], ties to even, in lowest terms. *)
Definition binary64 (x : Q) : Q :=
  match Qnum x with
  | Z0 => 0%Q
  | Zpos _ => Qred (round_to (ulp x) x)
  | Zneg _ => Qred (- round_to (ulp (- x)) (- x))
  end.

(** The conversion of an [int] operand of a float operation. *)
Definition float_of_nat (n : nat) : Q := binary64 (Q_of_nat n).

Definition fmul (x y : Q) : Q := binary64 (x * y).
Definition fdiv (x y : Q) : Q := binary64 (x / y).

(** [round(pct, 4)]: the double nearest to the decimal rounding of [pct]. *)
Definition round_4 (pct : Q) : Q := binary64 (round4 pct).

(** [diff_percent] as the interpreter evaluates it: the scan of lines 103
    to 108, then [100.0 * changed / total] with [changed] and [total]
    converted to doubles and the product and the quotient each rounded. *)
Definition diff_percent_double (a b : Image) (channel_threshold : Z) : result Q :=
  if decide (size a ≠ size b) then Ok 100%Q
  else
    let a_pixels := load a in
    let b_pixels := load b in
    let '(width, height) := size a in
    let total := width * height in
    changed ← scan_rows a_pixels b_pixels channel_threshold width (seq 0 height) 0;
    if total =? 0 then Raise ZeroDivisionError
    else Ok (fdiv (fmul 100 (float_of_nat changed)) (float_of_nat total)).

(** [for page in cfg["pages"]] of [run_test], with its two accumulators.
    The loop only reads the baseline files; the current raster goes to the
    scratch directory of the run and is a local value here. *)
Fixpoint test_pages (store : gmap FilePath Image) (pdf : Document)
    (baseline_dir : string) (max_allowed : Q) (channel_threshold : Z)
    (ps : list Z) (failures : list Failure) (summary : list (string * Q))
  : result (list Failure * list (string * Q)) :=
  match ps with
  | [] => Ok (failures, summary)
  | page :: ps' =>
      let base_png := {| parent := baseline_dir; name := page_png_name page |} in
      match store !! base_png with
      | None =>
          test_pages store pdf baseline_dir max_allowed channel_threshold ps'
            (failures ++ [MissingBaselineImage base_png]) summary
      | Some base =>
          cur ← extract_page_png pdf page;
          pct ← diff_percent_double base cur channel_threshold;
          let summary := dict_set (summary_key page) (round_4 pct) summary in
          test_pages store pdf baseline_dir max_allowed channel_threshold ps'
            (if Qlt_le_dec max_allowed pct
             then failures ++ [DiffExceeds page pct max_allowed]
             else failures)
            summary
      end
  end.

Definition run_test (env : Env) (cfg : Config) : IO Z :=
  let baseline_dir := path_join (ROOT env) (baseline_dir cfg) in
  present ← dir_exists baseline_dir;
  if negb present then raise (SystemExit (BaselineDirectoryMissing baseline_dir))
  else
    pdf ← generate_pdf env cfg;
    _ ← lift (assert_text_invariants cfg pdf);
    let max_allowed := binary64 (max_diff_pct_per_page (thresholds cfg)) in
    let channel_threshold := default 15%Z (pixel_channel_threshold (thresholds cfg)) in
    report ← (fun w => (test_pages (files w) pdf baseline_dir max_allowed
                          channel_threshold (pages cfg) [] [], w));
    let '(failures, summary) := report in
    _ ← print (PrintedSummary summary);
    match failures with
    | _ :: _ => raise (SystemExit (PdfRegressionFailed failures))
    | [] =>
        _ ← print PrintedPassed;
        mret 0%Z
    end.

(** ** The command line *)

(** The positional argument as [parser.parse_args()] returns it.  What
    argparse does with any other command line (usage and status 2, or the
    help text and status 0 on [-h]) happens inside [main] after the two tool
    checks and is not part of this model. *)
Inductive Mode := calibrate | test.

Definition CONFIG_PATH (env : Env) : string :=
  ROOT env +:+ "/tests/pdf_regression/calibration.json".

Definition require_tool (env : Env) (name : string) : IO unit :=
  if which env name then mret tt else raise (SystemExit (MissingRequiredTool name)).

Definition load_config (env : Env) : IO Config := fun w =>
  match config_file w with
  | Some cfg => (Ok cfg, w)
  | None => (Raise (FileNotFoundError (CONFIG_PATH env)), w)
  end.

Definition main (env : Env) (mode : Mode) : IO Z :=
  _ ← require_tool env "pdftotext";
  _ ← require_tool env "pdftoppm";
  cfg ← load_config env;
  match mode with
  | calibrate => run_calibrate env cfg
  | test => run_test env cfg
  end.

(** The exit status of [raise SystemExit(main())] for an outcome of the
    model: the integer returned, or 1 when the run ended in [SystemExit]
    with a message or in any other exception. *)
Definition exit_status (r : result Z) : Z :=
  match r with
  | Ok n => n
  | Raise _ => 1%Z
  end.

(** ** Reference formulations used in the statements *)

(** The coordinates [(x, y)] of a [width] by [height] raster in the order
    the nested loops of [diff_percent] visit them. *)
Definition coordinates (width height : nat) : list (nat * nat) :=
  y ← seq 0 height; (λ x, (x, y)) <$> seq 0 width.

(** The test of line 107 at one coordinate. *)
Definition pixel_changed (a b : Image) (channel_threshold : Z) (xy : nat * nat) : bool :=
  match load a xy.1 xy.2, load b xy.1 xy.2 with
  | Ok p1, Ok p2 => (channel_threshold <? max_channel_delta p1 p2)%Z
  | _, _ => false
  end.

(** The comparison of [diff_percent] with its coordinates visited in a given
    order instead of row by row. *)
Fixpoint scan_in_order (a_pixels b_pixels : nat → nat → result RGB)
    (channel_threshold : Z) (order : list (nat * nat)) (changed : nat) : result nat :=
  match order with
  | [] => Ok changed
  | (x, y) :: order' =>
      p1 ← a_pixels x y;
      p2 ← b_pixels x y;
      scan_in_order a_pixels b_pixels channel_threshold order'
        (if (channel_threshold <? max_channel_delta p1 p2)%Z
         then changed + 1 else changed)
  end.

Definition diff_percent_in_order (order : list (nat * nat))
    (a b : Image) (channel_threshold : Z) : result Q :=
  if decide (size a ≠ size b) then Ok 100%Q
  else
    let '(width, height) := size a in
    let total := width * height in
    changed ← scan_in_order (load a) (load b) channel_threshold order 0;
    if total =? 0 then Raise ZeroDivisionError
    else Ok (100 * Q_of_nat changed / Q_of_nat total)%Q.

(** The single linear scan of the design notes: one index [i] running over
    the two flattened pixel buffers. *)
Fixpoint scan_flat (a_buf b_buf : list RGB) (channel_threshold : Z)
    (indices : list nat) (changed : nat) : result nat :=
  match indices with
  | [] => Ok changed
  | i :: indices' =>
      match a_buf !! i, b_buf !! i with
      | Some p1, Some p2 =>
          scan_flat a_buf b_buf channel_threshold indices'
            (if (channel_threshold <? max_channel_delta p1 p2)%Z
             then changed + 1 else changed)
      | _, _ => Raise IndexError
      end
  end.

Definition diff_percent_flat (a b : Image) (channel_threshold : Z) : result Q :=
  if decide (size a ≠ size b) then Ok 100%Q
  else
    let '(width, height) := size a in
    let total := width * height in
    changed ← scan_flat (raster a) (raster b) channel_threshold (seq 0 total) 0;
    if total =? 0 then Raise ZeroDivisionError
    else Ok (100 * Q_of_nat changed / Q_of_nat total)%Q.

(** Every image file of the store and every raster the document yields is
    one that PIL can open. *)
Definition valid_store (store : gmap FilePath Image) : Prop :=
  ∀ p im, store !! p = Some im → valid_image im.

Definition valid_document (pdf : Document) : Prop :=
  ∀ page im, pdftoppm pdf page = Some im → valid_image im.

(** [needle] occurs in [hay] as a contiguous substring. *)
Definition is_substring (needle hay : string) : Prop :=
  ∃ pre post : string, hay = pre +:+ needle +:+ post.

(** The keys of [items] whose value is false, in the order of [items]. *)
Definition false_keys (items : list (string * bool)) : list string :=
  (filter (λ kv : string * bool, kv.2 = false) items).*1.

(** [baseline_dir / f"page_{page}.png"] *)
Definition baseline_png (baseline_dir : string) (page : Z) : FilePath :=
  {| parent := baseline_dir; name := page_png_name page |}.

(** The pages that have a baseline image can be rasterised from the current
    document. *)
Definition pages_rasterise (store : gmap FilePath Image) (pdf : Document)
    (baseline_dir : string) (ps : list Z) : Prop :=
  ∀ page, page ∈ ps → is_Some (store !! baseline_png baseline_dir page) →
          is_Some (pdftoppm pdf page).

(** What one iteration of the loop of [run_test] adds to [failures]. *)
Definition page_failures (store : gmap FilePath Image) (pdf : Document)
    (baseline_dir : string) (max_allowed : Q) (channel_threshold : Z)
    (page : Z) : list Failure :=
  match store !! baseline_png baseline_dir page with
  | None => [MissingBaselineImage (baseline_png baseline_dir page)]
  | Some base =>
      match pdftoppm pdf page with
      | Some cur =>
          match diff_percent_double base cur channel_threshold with
          | Ok pct =>
              if Qlt_le_dec max_allowed pct
              then [DiffExceeds page pct max_allowed] else []
          | Raise _ => []
          end
      | None => []
      end
  end.

(** The image files of a world lie in directories of that world. *)
Definition files_in_dirs (w : World) : Prop :=
  ∀ f, is_Some (files w !! f) → parent f ∈ dirs w.

(** The three values [run_test] and [run_calibrate] read off the
    configuration. *)
Definition baseline_dir_of (env : Env) (cfg : Config) : string :=
  path_join (ROOT env) (baseline_dir cfg).

Definition max_allowed_of (cfg : Config) : Q :=
  binary64 (max_diff_pct_per_page (thresholds cfg)).

Definition channel_threshold_of (cfg : Config) : Z :=
  default 15%Z (pixel_channel_threshold (thresholds cfg)).


(** Every channel of every pixel is an 8-bit value, as after
    [convert("RGB")]. *)
Definition rgb8 (p : RGB) : Prop :=
  let '(r, g, b) := p in
  (0 ≤ r ≤ 255)%Z ∧ (0 ≤ g ≤ 255)%Z ∧ (0 ≤ b ≤ 255)%Z.

Definition rgb8_image (im : Image) : Prop := Forall rgb8 (raster im).

(** What [urllib.request.urlopen] makes of the POST in [generate_pdf]: a
    response with its status, its [Content-Type] header if any and its body,
    or one of the two exceptions the function catches. *)
Inductive UrlOpen :=
| Response (status : Z) (content_type : option string) (payload : Document)
| HTTPError (code : Z) (detail : string)
| URLError (reason : string).

(** Lines 58 to 70 of [generate_pdf]: the document written to [out_pdf], or
    the [SystemExit] with its message. *)
Definition receive_pdf (r : UrlOpen) : result Document :=
  match r with
  | HTTPError code detail =>
      Raise (SystemExit (PdfEndpointError
        ("PDF endpoint HTTP " +:+ pretty code +:+ ": " +:+ detail)))
  | URLError reason =>
      Raise (SystemExit (PdfEndpointError
        ("PDF endpoint error: <urlopen error " +:+ reason +:+ ">")))
  | Response status content_type payload =>
      let ctype := default "" content_type in
      if negb (status =? 200)%Z || negb (str_in "application/pdf" ctype)
      then Raise (SystemExit (PdfEndpointError
             ("Unexpected PDF response status=" +:+ pretty status +:+
              " content_type=" +:+ ctype)))
      else Ok payload
  end.

(** The configuration [cfg] with other thresholds. *)
Definition with_thresholds (cfg : Config) (th : Thresholds) : Config :=
  {| fixture := fixture cfg; endpoint := endpoint cfg; pages := pages cfg;
     baseline_dir := baseline_dir cfg; thresholds := th;
     text_invariants := text_invariants cfg; calibration := calibration cfg |}.

(** ** Sample data *)

(** Two 2 by 2 rasters that differ at (1, 0) by exactly 15 in the red
    channel and at (1, 1) by 16 in the blue channel, and a 3 by 1 raster. *)
Definition sample_baseline : Image :=
  {| size := (2, 2);
     raster := [(0, 0, 0); (10, 10, 10); (255, 0, 0); (0, 0, 16)]%Z |}.

Definition sample_current : Image :=
  {| size := (2, 2);
     raster := [(0, 0, 0); (25, 10, 10); (255, 0, 0); (0, 0, 0)]%Z |}.

Definition sample_wide : Image :=
  {| size := (3, 1); raster := [(0, 0, 0); (0, 0, 0); (0, 0, 0)]%Z |}.

Definition sample_cfg : Config :=
  {| fixture := "tests/pdf_regression/fixture.txt";
     endpoint := "http://127.0.0.1:8080/report.pdf";
     pages := [1; 2]%Z;
     baseline_dir := "tests/pdf_regression/baseline";
     thresholds := {| max_diff_pct_per_page := 25%Q;
                      pixel_channel_threshold := Some 15%Z |};
     text_invariants :=
       {| page1_footer_contains := "Page 1 of";
          page2_footer_contains := "Page 2 of";
          must_start_on_page2 := "How this report works" |};
     calibration := None |}.

(** A render that keeps the structural contract: page 2 differs from
    [sample_baseline] in one pixel of four. *)
Definition sample_pdf : Document :=
  {| pdftotext := λ page,
       if (page =? 1)%Z then Some "Summary. Page 1 of 2"
       else if (page =? 2)%Z then Some "How this report works. Page 2 of 2"
       else None;
     pdftoppm := λ page,
       if (page =? 1)%Z then Some sample_baseline
       else if (page =? 2)%Z then Some sample_current
       else None |}.

(** A render whose explanatory block starts on page 1 already. *)
Definition broken_pdf : Document :=
  {| pdftotext := λ page,
       if (page =? 1)%Z then Some "How this report works. Page 1 of 2"
       else if (page =? 2)%Z then Some "How this report works, continued. Page 2 of 2"
       else None;
     pdftoppm := pdftoppm sample_pdf |}.

Definition sample_env (pdf : Document) : Env :=
  {| ROOT := "/repo";
     which := λ _, true;
     http_post := λ _ _, Ok pdf;
     utcnow := "2026-01-01T00:00:00Z" |}.

Definition sample_config_file : option Config := Some sample_cfg.

(** A checkout that was never calibrated. *)
Definition fresh_world : World :=
  {| dirs := ∅; files := ∅; config_file := sample_config_file; stdout := [] |}.

(** A calibrated checkout whose two baseline pages are [sample_baseline]. *)
Definition calibrated_world : World :=
  {| dirs := {[ "/repo/tests/pdf_regression/baseline" ]};
     files := {[ baseline_png "/repo/tests/pdf_regression/baseline" 1 := sample_baseline;
                 baseline_png "/repo/tests/pdf_regression/baseline" 2 := sample_baseline ]};
     config_file := sample_config_file;
     stdout := [] |}.

(** A checkout whose baseline lost the image of page 2. *)
Definition partial_world : World :=
  {| dirs := {[ "/repo/tests/pdf_regression/baseline" ]};
     files := {[ baseline_png "/repo/tests/pdf_regression/baseline" 1 := sample_baseline ]};
     config_file := sample_config_file;
     stdout := [] |}.

(** The PDF endpoint is unreachable. *)
Definition down_env : Env :=
  {| ROOT := "/repo";
     which := λ _, true;
     http_post := λ _ _, Raise (SystemExit (PdfEndpointError "connection refused"));
     utcnow := "2026-01-01T00:00:00Z" |}.

(** The sample configuration with the allowed percentage one unit lower. *)
Definition strict_cfg : Config :=
  {| fixture := fixture sample_cfg; endpoint := endpoint sample_cfg;
     pages := pages sample_cfg; baseline_dir := baseline_dir sample_cfg;
     thresholds := {| max_diff_pct_per_page := 24%Q;
                      pixel_channel_threshold := Some 15%Z |};
     text_invariants := text_invariants sample_cfg;
     calibration := None |}.

(** The sample configuration without a marker for page 2. *)
Definition empty_marker_cfg : Config :=
  {| fixture := fixture sample_cfg; endpoint := endpoint sample_cfg;
     pages := pages sample_cfg; baseline_dir := baseline_dir sample_cfg;
     thresholds := thresholds sample_cfg;
     text_invariants :=
       {| page1_footer_contains := "Page 1 of";
          page2_footer_contains := "Page 2 of";
          must_start_on_page2 := "" |};
     calibration := None |}.

(** A file that is not a PDF: both poppler tools fail on every page. *)
Definition unreadable_pdf : Document :=
  {| pdftotext := λ _, None; pdftoppm := λ _, None |}.

(** A render whose two pages carry the same text. *)
Definition same_text_pdf : Document :=
  {| pdftotext := λ _, Some "How this report works. Page 1 of 2";
     pdftoppm := pdftoppm sample_pdf |}.

(** A render of which only page 1 can be rasterised. *)
Definition one_page_pdf : Document :=
  {| pdftotext := pdftotext sample_pdf;
     pdftoppm := λ page, if (page =? 1)%Z then Some sample_current else None |}.

(** A 3 by 2 page of which five pixels of six changed, checked against an
    allowed maximum written as 83.33333333333333: the double of
    [100.0 * 5 / 6] and the double of that decimal are the same number. *)
Definition boundary_baseline : Image :=
  {| size := (3, 2);
     raster := [(255, 255, 255); (255, 255, 255); (255, 255, 255);
                (255, 255, 255); (255, 255, 255); (255, 255, 255)]%Z |}.

Definition boundary_current : Image :=
  {| size := (3, 2);
     raster := [(0, 0, 0); (0, 0, 0); (0, 0, 0);
                (0, 0, 0); (0, 0, 0); (255, 255, 255)]%Z |}.

Definition boundary_pdf : Document :=
  {| pdftotext := pdftotext sample_pdf;
     pdftoppm := λ page, if (page =? 1)%Z then Some boundary_current else None |}.

Definition boundary_cfg : Config :=
  {| fixture := fixture sample_cfg; endpoint := endpoint sample_cfg;
     pages := [1%Z]; baseline_dir := baseline_dir sample_cfg;
     thresholds :=
       {| max_diff_pct_per_page := 8333333333333333 # 100000000000000;
          pixel_channel_threshold := None |};
     text_invariants := text_invariants sample_cfg;
     calibration := None |}.

Definition boundary_world : World :=
  {| dirs := {[ "/repo/tests/pdf_regression/baseline" ]};
     files := {[ baseline_png "/repo/tests/pdf_regression/baseline" 1 :=
                   boundary_baseline ]};
     config_file := Some boundary_cfg;
     stdout := [] |}.

(** * Properties *)

(** Validity of a concrete image: both dimensions positive and the raster
    of the right length, by evaluation. *)
Ltac valid_sample := repeat split; vm_compute; lia.

(** ** Pixel access on valid images *)

Lemma load_Ok_inv im x y p :
  load im x y = Ok p →
  x < width im ∧ y < height im ∧ raster im !! (y * width im + x) = Some p.
Proof.
  unfold load. intros H.
  destruct (x <? width im) eqn:Hx; [| discriminate].
  destruct (y <? height im) eqn:Hy; [| discriminate].
  simpl in H. apply Nat.ltb_lt in Hx. apply Nat.ltb_lt in Hy.
  destruct (raster im !! (y * width im + x)) eqn:Hl; [| discriminate].
  injection H as ->. auto.
Qed.

Lemma load_valid im x y :
  valid_image im → x < width im → y < height im →
  ∃ p, load im x y = Ok p ∧ raster im !! (y * width im + x) = Some p.
Proof.
  intros (Hw & Hh & Hlen) Hx Hy. unfold load.
  apply Nat.ltb_lt in Hx as Hx'. apply Nat.ltb_lt in Hy as Hy'.
  rewrite Hx', Hy'. simpl.
  destruct (lookup_lt_is_Some_2 (raster im) (y * width im + x)) as [p Hp].
  - rewrite Hlen. nia.
  - exists p. by rewrite Hp.
Qed.

(** ** The nested loops visit [coordinates] in order *)

Lemma scan_row_in_order ap bp t y xs c :
  scan_row ap bp t y xs c = scan_in_order ap bp t ((λ x, (x, y)) <$> xs) c.
Proof.
  revert c. induction xs as [| x xs IH]; intros c; simpl; [done |].
  destruct (ap x y) as [p1 |]; simpl; [| done].
  destruct (bp x y) as [p2 |]; simpl; [| done].
  apply IH.
Qed.

Lemma scan_in_order_app ap bp t l1 l2 c :
  scan_in_order ap bp t (l1 ++ l2) c =
  scan_in_order ap bp t l1 c ≫= scan_in_order ap bp t l2.
Proof.
  revert c. induction l1 as [| [x y] l1 IH]; intros c; simpl; [done |].
  destruct (ap x y) as [p1 |]; simpl; [| done].
  destruct (bp x y) as [p2 |]; simpl; [| done].
  apply IH.
Qed.

Lemma scan_rows_in_order ap bp t w ys c :
  scan_rows ap bp t w ys c =
  scan_in_order ap bp t (y ← ys; (λ x, (x, y)) <$> seq 0 w) c.
Proof.
  revert c. induction ys as [| y ys IH]; intros c; simpl; [done |].
  rewrite scan_in_order_app, scan_row_in_order.
  destruct (scan_in_order ap bp t _ c); simpl; [apply IH | done].
Qed.

Lemma diff_percent_row_major a b t :
  diff_percent a b t = diff_percent_in_order (coordinates (width a) (height a)) a b t.
Proof.
  unfold diff_percent, diff_percent_in_order, width, height.
  destruct (decide (size a ≠ size b)); [done |].
  destruct (size a) as [w h]; simpl.
  by rewrite scan_rows_in_order.
Qed.

(** ** Counting *)

Lemma scan_in_order_count a b t order c :
  valid_image a → valid_image b → size a = size b →
  Forall (λ xy, xy.1 < width a ∧ xy.2 < height a) order →
  scan_in_order (load a) (load b) t order c =
  Ok (c + length (filter (λ xy, pixel_changed a b t xy) order)).
Proof.
  intros Ha Hb Hsz Hall. revert c.
  induction Hall as [| [x y] order [Hx Hy] _ IH]; intros c; simpl.
  - f_equal. lia.
  - simpl in Hx, Hy.
    destruct (load_valid a x y Ha Hx Hy) as (p1 & Hp1 & _).
    destruct (load_valid b x y Hb) as (p2 & Hp2 & _).
    { unfold width. rewrite <- Hsz. exact Hx. }
    { unfold height. rewrite <- Hsz. exact Hy. }
    rewrite Hp1, Hp2. simpl. rewrite IH.
    rewrite filter_cons.
    assert (Hpc : pixel_changed a b t (x, y) = (t <? max_channel_delta p1 p2)%Z).
    { unfold pixel_changed. simpl. by rewrite Hp1, Hp2. }
    rewrite Hpc.
    destruct (t <? max_channel_delta p1 p2)%Z; simpl; f_equal; lia.
Qed.

Lemma elem_of_coordinates w h x y :
  (x, y) ∈ coordinates w h ↔ x < w ∧ y < h.
Proof.
  unfold coordinates. rewrite list_elem_of_bind. split.
  - intros (y' & Hin & Hy'). apply list_elem_of_fmap in Hin as (x' & Heq & Hx').
    injection Heq as -> ->. apply elem_of_seq in Hx', Hy'. lia.
  - intros [Hx Hy]. exists y. split.
    + apply list_elem_of_fmap. exists x. split; [done |]. apply elem_of_seq. lia.
    + apply elem_of_seq. lia.
Qed.

Lemma coordinates_in_range w h :
  Forall (λ xy, xy.1 < w ∧ xy.2 < h) (coordinates w h).
Proof.
  apply Forall_forall. intros [x y] Hin. simpl. by apply elem_of_coordinates.
Qed.

Lemma length_coordinates w h : length (coordinates w h) = w * h.
Proof.
  unfold coordinates.
  assert (H : ∀ ys : list nat,
             length (y ← ys; (λ x, (x, y)) <$> seq 0 w) = w * length ys).
  { induction ys as [| y ys IH]; csimpl; [lia |].
    rewrite length_app, length_fmap, length_seq, IH. lia. }
  rewrite H, length_seq. done.
Qed.

Lemma NoDup_coordinates w h : NoDup (coordinates w h).
Proof.
  unfold coordinates. apply NoDup_bind.
  - intros y1 y2 [x y] _ _ H1 H2.
    apply list_elem_of_fmap in H1 as (? & H1 & _).
    apply list_elem_of_fmap in H2 as (? & H2 & _). congruence.
  - intros y _. apply NoDup_fmap_2; [| apply NoDup_seq].
    intros x1 x2 Heq. congruence.
  - apply NoDup_seq.
Qed.

Lemma length_filter_mono {A} (P1 P2 : A → Prop)
    `{!∀ x, Decision (P1 x)} `{!∀ x, Decision (P2 x)} (l : list A) :
  (∀ x, x ∈ l → P1 x → P2 x) → length (filter P1 l) ≤ length (filter P2 l).
Proof.
  induction l as [| x l IH]; intros Himp; [done |].
  rewrite !filter_cons.
  assert (IH' : length (filter P1 l) ≤ length (filter P2 l)).
  { apply IH. intros z Hz. apply Himp. by right. }
  destruct (decide (P1 x)) as [H1 |]; destruct (decide (P2 x)) as [| H2]; simpl; try lia.
  destruct H2. apply Himp; [by left | done].
Qed.

Lemma filter_none {A} (P : A → Prop) `{!∀ x, Decision (P x)} (l : list A) :
  (∀ x, ¬ P x) → filter P l = [].
Proof.
  intros HP. induction l as [| x l IH]; [done |].
  rewrite filter_cons. by destruct (decide (P x)) as [Hx%HP |].
Qed.

Lemma pixel_changed_spec a b t x y :
  pixel_changed a b t (x, y) = true ↔
  ∃ r1 g1 b1 r2 g2 b2,
    load a x y = Ok (r1, g1, b1) ∧ load b x y = Ok (r2, g2, b2) ∧
    (t < Z.max (Z.max (Z.abs (r1 - r2)) (Z.abs (g1 - g2))) (Z.abs (b1 - b2)))%Z.
Proof.
  unfold pixel_changed. simpl. split.
  - destruct (load a x y) as [[[r1 g1] b1] |]; [| done].
    destruct (load b x y) as [[[r2 g2] b2] |]; [| done].
    intros H. apply Z.ltb_lt in H. by exists r1, g1, b1, r2, g2, b2.
  - intros (r1 & g1 & b1 & r2 & g2 & b2 & -> & -> & H). by apply Z.ltb_lt.
Qed.

Lemma pixel_changed_mono a b t1 t2 xy :
  (t1 ≤ t2)%Z → pixel_changed a b t2 xy → pixel_changed a b t1 xy.
Proof.
  unfold pixel_changed. intros Ht.
  destruct (load a xy.1 xy.2) as [p1 |]; [| done].
  destruct (load b xy.1 xy.2) as [p2 |]; [| done].
  intros H. apply Is_true_true in H. apply Is_true_true.
  apply Z.ltb_lt in H. apply Z.ltb_lt. lia.
Qed.

Lemma max_channel_delta_diag p : max_channel_delta p p = 0%Z.
Proof. destruct p as [[r g] b]. unfold max_channel_delta. lia. Qed.

Lemma pixel_changed_diag img t xy : (0 ≤ t)%Z → pixel_changed img img t xy = false.
Proof.
  intros Ht. unfold pixel_changed.
  destruct (load img xy.1 xy.2) as [p |]; [| done].
  rewrite max_channel_delta_diag. apply Z.ltb_ge. lia.
Qed.

(** ** The percentage as a rational *)

Lemma Q_of_nat_pos n : 0 < n → (0 < Q_of_nat n)%Q.
Proof. intros H. unfold Q_of_nat, Qlt. simpl. lia. Qed.

Lemma Q_of_nat_le m n : m ≤ n → (Q_of_nat m <= Q_of_nat n)%Q.
Proof. intros H. unfold Q_of_nat. rewrite <- Zle_Qle. lia. Qed.

Lemma percent_mono c1 c2 n :
  c1 ≤ c2 → 0 < n →
  (100 * Q_of_nat c1 / Q_of_nat n <= 100 * Q_of_nat c2 / Q_of_nat n)%Q.
Proof.
  intros Hc Hn. unfold Qdiv.
  apply Qmult_le_compat_r.
  - apply Qmult_le_l; [reflexivity |]. by apply Q_of_nat_le.
  - apply Qlt_le_weak, Qinv_lt_0_compat. by apply Q_of_nat_pos.
Qed.

Lemma percent_zero n : 0 < n → (100 * Q_of_nat 0 / Q_of_nat n == 0)%Q.
Proof.
  intros Hn. unfold Qdiv.
  assert (H : (100 * Q_of_nat 0 == 0)%Q) by reflexivity.
  rewrite H. apply Qmult_0_l.
Qed.

Lemma percent_full n : 0 < n → (100 * Q_of_nat n / Q_of_nat n == 100)%Q.
Proof.
  intros Hn. apply Qdiv_mult_l.
  intros H0. pose proof (Q_of_nat_pos n Hn) as Hpos. rewrite H0 in Hpos.
  by apply Qlt_irrefl in Hpos.
Qed.

Lemma percent_bounds c n :
  c ≤ n → 0 < n →
  (0 <= 100 * Q_of_nat c / Q_of_nat n)%Q ∧ (100 * Q_of_nat c / Q_of_nat n <= 100)%Q.
Proof.
  intros Hc Hn. split.
  - eapply Qle_trans; [| apply (percent_mono 0 c n); lia].
    rewrite (percent_zero n Hn). apply Qle_refl.
  - eapply Qle_trans; [apply (percent_mono c n n); lia |].
    rewrite (percent_full n Hn). apply Qle_refl.
Qed.

(** ** The value of [diff_percent] on equal-sized valid images *)

Lemma diff_percent_in_order_value order a b t :
  valid_image a → valid_image b → size a = size b →
  order ≡ₚ coordinates (width a) (height a) →
  diff_percent_in_order order a b t =
  Ok (100 * Q_of_nat (length (filter (λ xy, pixel_changed a b t xy)
                                (coordinates (width a) (height a))))
      / Q_of_nat (width a * height a))%Q.
Proof.
  intros Ha Hb Hsz Hperm. unfold diff_percent_in_order.
  destruct (decide (size a ≠ size b)) as [Hne |]; [by destruct Hne |].
  rewrite (scan_in_order_count a b t order 0 Ha Hb Hsz).
  2:{ rewrite Hperm. apply coordinates_in_range. }
  destruct Ha as (Hw & Hh & _). unfold width, height in *.
  destruct (size a) as [w h]; simpl in *.
  destruct (Nat.eqb_spec (w * h) 0) as [H0 | _]; [nia |].
  by rewrite Hperm.
Qed.

Lemma diff_percent_value a b t :
  valid_image a → valid_image b → size a = size b →
  diff_percent a b t =
  Ok (100 * Q_of_nat (length (filter (λ xy, pixel_changed a b t xy)
                                (coordinates (width a) (height a))))
      / Q_of_nat (width a * height a))%Q.
Proof.
  intros Ha Hb Hsz. rewrite diff_percent_row_major.
  by apply diff_percent_in_order_value.
Qed.

Lemma size_mismatch_gives_100 a b t :
  size a ≠ size b → diff_percent a b t = Ok 100%Q.
Proof. intros Hne. unfold diff_percent. by destruct (decide (size a ≠ size b)). Qed.

Lemma changed_le_total a b t :
  length (filter (λ xy, pixel_changed a b t xy) (coordinates (width a) (height a)))
  ≤ width a * height a.
Proof. rewrite <- (length_coordinates (width a) (height a)). apply length_filter. Qed.

Lemma valid_image_total_pos a : valid_image a → 0 < width a * height a.
Proof. intros (Hw & Hh & _). nia. Qed.

(** ** The flattened scan *)

Lemma load_index im x y :
  x < width im → y < height im →
  load im x y = match raster im !! (y * width im + x) with
                | Some p => Ok p
                | None => Raise IndexError
                end.
Proof.
  intros Hx Hy. unfold load.
  apply Nat.ltb_lt in Hx. apply Nat.ltb_lt in Hy. by rewrite Hx, Hy.
Qed.

Lemma scan_in_order_flat a b t order c :
  size a = size b →
  Forall (λ xy, xy.1 < width a ∧ xy.2 < height a) order →
  scan_in_order (load a) (load b) t order c =
  scan_flat (raster a) (raster b) t ((λ xy, xy.2 * width a + xy.1) <$> order) c.
Proof.
  intros Hsz Hall. revert c.
  induction Hall as [| [x y] order [Hx Hy] _ IH]; intros c; [done |].
  simpl in Hx, Hy. cbn [scan_in_order fmap list_fmap scan_flat]. simpl.
  rewrite (load_index a x y Hx Hy).
  rewrite (load_index b x y).
  2:{ unfold width. by rewrite <- Hsz. }
  2:{ unfold height. by rewrite <- Hsz. }
  replace (width b) with (width a) by (unfold width; by rewrite Hsz).
  destruct (raster a !! (y * width a + x)) as [p1 |]; simpl; [| done].
  destruct (raster b !! (y * width a + x)) as [p2 |]; simpl; [| done].
  apply IH.
Qed.

Lemma coordinates_indices w h :
  (λ xy : nat * nat, xy.2 * w + xy.1) <$> coordinates w h = seq 0 (w * h).
Proof.
  unfold coordinates.
  assert (H : ∀ n s,
             (λ xy : nat * nat, xy.2 * w + xy.1) <$>
               (y ← seq s n; (λ x, (x, y)) <$> seq 0 w) = seq (s * w) (n * w)).
  { induction n as [| n IH]; intros s; [done |].
    cbn [seq]. rewrite bind_cons, fmap_app, IH, <- list_fmap_compose.
    replace (S n * w) with (w + n * w) by lia.
    rewrite seq_app. f_equal.
    - replace (seq (s * w) w) with (Nat.add (s * w) <$> seq 0 w)
        by (rewrite fmap_add_seq; f_equal; lia).
      apply list_fmap_ext. intros i x _. done.
    - f_equal. lia. }
  rewrite (H h 0). f_equal; lia.
Qed.

Lemma diff_percent_flat_row_major a b t :
  diff_percent_flat a b t = diff_percent a b t.
Proof.
  rewrite diff_percent_row_major. unfold diff_percent_flat, diff_percent_in_order.
  destruct (decide (size a ≠ size b)) as [| Hsz]; [done |].
  apply dec_stable in Hsz.
  rewrite (scan_in_order_flat a b t _ 0 Hsz (coordinates_in_range _ _)).
  rewrite coordinates_indices. unfold width, height.
  by destruct (size a) as [w h].
Qed.

(** ** The image differ *)

Example diff_percent_sample_15 :
  diff_percent sample_baseline sample_current 15 = Ok (100 # 4)%Q.
Proof. reflexivity. Qed.

Example diff_percent_sample_14 :
  diff_percent sample_baseline sample_current 14 = Ok (200 # 4)%Q.
Proof. reflexivity. Qed.

(** An image without pixels, which PIL never opens, would divide by zero. *)
Example diff_percent_no_pixels :
  diff_percent {| size := (0, 0); raster := [] |}
               {| size := (0, 0); raster := [] |} 15 = Raise ZeroDivisionError.
Proof. reflexivity. Qed.

(** C1.  For two images of identical pixel dimensions and any channel
    threshold [t], the pixels [diff_percent] counts as changed are exactly
    the coordinates at which the largest of the three per-channel absolute
    differences is strictly greater than [t] (a pixel at exactly [t] is not
    counted); the value returned is [100 * changed / total], with no
    rounding, and it lies between 0 and 100. *)
Theorem diff_percent_changed_fraction (a b : Image) (t : Z) :
  valid_image a → valid_image b → size a = size b →
  ∃ changed : list (nat * nat),
    NoDup changed ∧
    (∀ x y, x < width a → y < height a →
            ∃ p1 p2, load a x y = Ok p1 ∧ load b x y = Ok p2) ∧
    (∀ x y, (x, y) ∈ changed ↔
            ∃ r1 g1 b1 r2 g2 b2,
              load a x y = Ok (r1, g1, b1) ∧ load b x y = Ok (r2, g2, b2) ∧
              (t < Z.max (Z.max (Z.abs (r1 - r2)) (Z.abs (g1 - g2)))
                         (Z.abs (b1 - b2)))%Z) ∧
    diff_percent a b t =
      Ok (100 * Q_of_nat (length changed) / Q_of_nat (width a * height a))%Q ∧
    (0 <= 100 * Q_of_nat (length changed) / Q_of_nat (width a * height a))%Q ∧
    (100 * Q_of_nat (length changed) / Q_of_nat (width a * height a) <= 100)%Q.
Proof.
  intros Ha Hb Hsz.
  exists (filter (λ xy, pixel_changed a b t xy) (coordinates (width a) (height a))).
  split_and!.
  - apply NoDup_filter, NoDup_coordinates.
  - intros x y Hx Hy.
    destruct (load_valid a x y Ha Hx Hy) as (p1 & Hp1 & _).
    destruct (load_valid b x y Hb) as (p2 & Hp2 & _).
    { unfold width. by rewrite <- Hsz. }
    { unfold height. by rewrite <- Hsz. }
    by exists p1, p2.
  - intros x y. rewrite list_elem_of_filter, elem_of_coordinates.
    rewrite <- pixel_changed_spec. split.
    + intros [H _]. by apply Is_true_true.
    + intros H. split; [by apply Is_true_true |].
      apply pixel_changed_spec in H as (r1 & g1 & b1 & _ & _ & _ & H & _).
      apply load_Ok_inv in H. tauto.
  - by apply diff_percent_value.
  - apply percent_bounds; [apply changed_le_total | by apply valid_image_total_pos].
  - apply percent_bounds; [apply changed_le_total | by apply valid_image_total_pos].
Qed.

Lemma diff_percent_changed_fraction_witness :
  valid_image sample_baseline ∧ valid_image sample_current ∧
  size sample_baseline = size sample_current ∧
  ∃ changed : list (nat * nat),
    NoDup changed ∧
    (∀ x y, x < 2 → y < 2 →
            ∃ p1 p2, load sample_baseline x y = Ok p1 ∧ load sample_current x y = Ok p2) ∧
    (∀ x y, (x, y) ∈ changed ↔
            ∃ r1 g1 b1 r2 g2 b2,
              load sample_baseline x y = Ok (r1, g1, b1) ∧
              load sample_current x y = Ok (r2, g2, b2) ∧
              (15 < Z.max (Z.max (Z.abs (r1 - r2)) (Z.abs (g1 - g2)))
                          (Z.abs (b1 - b2)))%Z) ∧
    diff_percent sample_baseline sample_current 15 =
      Ok (100 * Q_of_nat (length changed) / Q_of_nat (2 * 2))%Q ∧
    (0 <= 100 * Q_of_nat (length changed) / Q_of_nat (2 * 2))%Q ∧
    (100 * Q_of_nat (length changed) / Q_of_nat (2 * 2) <= 100)%Q.
Proof.
  assert (Ha : valid_image sample_baseline) by valid_sample.
  assert (Hb : valid_image sample_current) by valid_sample.
  split; [exact Ha |]. split; [exact Hb |]. split; [reflexivity |].
  exact (diff_percent_changed_fraction sample_baseline sample_current 15
           Ha Hb eq_refl).
Defined.

(** C3.  When the pixel dimensions of the two images differ,
    [diff_percent] returns exactly 100 for every threshold, whatever the two
    rasters hold: nothing is resized, cropped or aligned and no pixel is
    read. *)
Theorem diff_percent_size_mismatch (a b : Image) (t : Z) :
  size a ≠ size b →
  diff_percent a b t = Ok 100%Q ∧
  ∀ ra rb : list RGB,
    diff_percent {| size := size a; raster := ra |}
                 {| size := size b; raster := rb |} t = Ok 100%Q.
Proof.
  intros Hne. split.
  - by apply size_mismatch_gives_100.
  - intros ra rb. by apply size_mismatch_gives_100.
Qed.

Lemma diff_percent_size_mismatch_witness :
  size sample_baseline ≠ size sample_wide ∧
  diff_percent sample_baseline sample_wide 15 = Ok 100%Q ∧
  ∀ ra rb : list RGB,
    diff_percent {| size := size sample_baseline; raster := ra |}
                 {| size := size sample_wide; raster := rb |} 15 = Ok 100%Q.
Proof.
  assert (Hne : size sample_baseline ≠ size sample_wide) by (simpl; congruence).
  split; [exact Hne |].
  exact (diff_percent_size_mismatch sample_baseline sample_wide 15 Hne).
Defined.

(** C7.  For two fixed images of identical dimensions, raising the channel
    threshold never raises the result: if [t1 <= t2] then
    [diff_percent a b t2 <= diff_percent a b t1]. *)
Theorem diff_percent_antitone (a b : Image) (t1 t2 : Z) :
  valid_image a → valid_image b → size a = size b → (t1 ≤ t2)%Z →
  ∃ d1 d2 : Q,
    diff_percent a b t1 = Ok d1 ∧ diff_percent a b t2 = Ok d2 ∧ (d2 <= d1)%Q.
Proof.
  intros Ha Hb Hsz Ht.
  eexists _, _. split_and!; [by apply diff_percent_value .. |].
  apply percent_mono; [| by apply valid_image_total_pos].
  apply length_filter_mono. intros xy _. by apply pixel_changed_mono.
Qed.

Lemma diff_percent_antitone_witness :
  valid_image sample_baseline ∧ valid_image sample_current ∧
  size sample_baseline = size sample_current ∧ (14 ≤ 15)%Z ∧
  ∃ d1 d2 : Q,
    diff_percent sample_baseline sample_current 14 = Ok d1 ∧
    diff_percent sample_baseline sample_current 15 = Ok d2 ∧ (d2 <= d1)%Q.
Proof.
  assert (Ha : valid_image sample_baseline) by valid_sample.
  assert (Hb : valid_image sample_current) by valid_sample.
  assert (Ht : (14 ≤ 15)%Z) by lia.
  split; [exact Ha |]. split; [exact Hb |]. split; [reflexivity |].
  split; [exact Ht |].
  exact (diff_percent_antitone sample_baseline sample_current 14 15
           Ha Hb eq_refl Ht).
Defined.

(** C8.  Comparing an image with itself under a nonnegative channel
    threshold reports zero drift. *)
Theorem diff_percent_identity (img : Image) (t : Z) :
  valid_image img → (0 ≤ t)%Z →
  ∃ d : Q, diff_percent img img t = Ok d ∧ (d == 0)%Q.
Proof.
  intros Himg Ht. eexists. split; [by apply diff_percent_value |].
  rewrite filter_none.
  - apply percent_zero. by apply valid_image_total_pos.
  - intros xy. rewrite (pixel_changed_diag img t xy Ht). simpl. tauto.
Qed.

Lemma diff_percent_identity_witness :
  valid_image sample_current ∧ (0 ≤ 0)%Z ∧
  ∃ d : Q, diff_percent sample_current sample_current 0 = Ok d ∧ (d == 0)%Q.
Proof.
  assert (Hb : valid_image sample_current) by valid_sample.
  assert (Ht : (0 ≤ 0)%Z) by lia.
  split; [exact Hb |]. split; [exact Ht |].
  exact (diff_percent_identity sample_current 0 Hb Ht).
Defined.

(** C9.  On two equal-sized images the nested row-by-row scan of
    [diff_percent] and a single linear scan over the flattened pixel buffers
    return the same value for every threshold, and so does a scan that
    visits the pixel coordinates in any other order. *)
Theorem diff_percent_flat_equiv (a b : Image) (t : Z) :
  valid_image a → valid_image b → size a = size b →
  diff_percent_flat a b t = diff_percent a b t ∧
  ∀ order : list (nat * nat),
    order ≡ₚ coordinates (width a) (height a) →
    diff_percent_in_order order a b t = diff_percent a b t.
Proof.
  intros Ha Hb Hsz. split.
  - apply diff_percent_flat_row_major.
  - intros order Hperm.
    rewrite (diff_percent_in_order_value order a b t Ha Hb Hsz Hperm).
    symmetry. by apply diff_percent_value.
Qed.

Lemma diff_percent_flat_equiv_witness :
  valid_image sample_baseline ∧ valid_image sample_current ∧
  size sample_baseline = size sample_current ∧
  diff_percent_flat sample_baseline sample_current 15 =
    diff_percent sample_baseline sample_current 15 ∧
  ∀ order : list (nat * nat),
    order ≡ₚ coordinates 2 2 →
    diff_percent_in_order order sample_baseline sample_current 15 =
      diff_percent sample_baseline sample_current 15.
Proof.
  assert (Ha : valid_image sample_baseline) by valid_sample.
  assert (Hb : valid_image sample_current) by valid_sample.
  split; [exact Ha |]. split; [exact Hb |]. split; [reflexivity |].
  exact (diff_percent_flat_equiv sample_baseline sample_current 15
           Ha Hb eq_refl).
Defined.

(** ** The text invariants *)

Lemma append_String c s t : String c s +:+ t = String c (s +:+ t).
Proof. reflexivity. Qed.

Lemma append_empty t : "" +:+ t = t.
Proof. reflexivity. Qed.

Lemma prefix_spec needle hay :
  String.prefix needle hay = true ↔ ∃ post, hay = needle +:+ post.
Proof.
  revert hay. induction needle as [| c needle IH]; intros hay.
  - split; [intros _; by exists hay | by destruct hay].
  - destruct hay as [| d hay]; simpl.
    + split; [done | intros [post H]; discriminate].
    + destruct (Ascii.ascii_dec c d) as [-> | Hne].
      * rewrite IH. split; intros [post H]; exists post;
          rewrite append_String in *; congruence.
      * split; [done | intros [post H]; rewrite append_String in H; congruence].
Qed.

Lemma str_in_spec needle hay : str_in needle hay = true ↔ is_substring needle hay.
Proof.
  unfold is_substring. induction hay as [| d hay IH]; cbn [str_in].
  - rewrite orb_false_r, prefix_spec. split.
    + intros [post H]. by exists "", post.
    + intros (pre & post & H). destruct pre; [by exists post | discriminate].
  - rewrite orb_true_iff, prefix_spec, IH. split.
    + intros [[post H] | (pre & post & H)].
      * by exists "", post.
      * exists (String d pre), post. rewrite append_String. by rewrite H.
    + intros (pre & post & H). destruct pre as [| c pre].
      * left. by exists post.
      * right. exists pre, post. rewrite append_String in H. congruence.
Qed.

Lemma failed_keys_false_keys items : failed_keys items = false_keys items.
Proof.
  unfold false_keys. induction items as [| [k v] items IH]; [done |].
  simpl. rewrite filter_cons. simpl. destruct v; simpl; by rewrite IH.
Qed.

Example assert_text_invariants_sample :
  assert_text_invariants sample_cfg sample_pdf =
  Ok [ ("page1_footer_present", true); ("page2_footer_present", true);
       ("page1_no_how_this_report_works", true);
       ("page2_has_how_this_report_works", true) ].
Proof. reflexivity. Qed.

(** C2, as the specification states it, fails: on a render whose page 1
    already holds the marker, one of the four results is false and
    [assert_text_invariants] raises [SystemExit] itself instead of returning
    the mapping to its caller. *)
Lemma assert_text_invariants_aborts_on_false :
  pdftotext broken_pdf 1 = Some "How this report works. Page 1 of 2" ∧
  pdftotext broken_pdf 2 = Some "How this report works, continued. Page 2 of 2" ∧
  text_flags (text_invariants sample_cfg)
    "How this report works. Page 1 of 2"
    "How this report works, continued. Page 2 of 2" =
    [ ("page1_footer_present", true); ("page2_footer_present", true);
      ("page1_no_how_this_report_works", false);
      ("page2_has_how_this_report_works", true) ] ∧
  assert_text_invariants sample_cfg broken_pdf =
    Raise (SystemExit (TextInvariantFailures ["page1_no_how_this_report_works"])) ∧
  ¬ ∃ flags, assert_text_invariants sample_cfg broken_pdf = Ok flags.
Proof.
  split_and!; try reflexivity.
  intros [flags H]. vm_compute in H. discriminate.
Qed.

(** C2, amended.  [assert_text_invariants] evaluates all four checks, each
    an independent substring test on the text of page 1 or page 2, without
    short-circuit.  When all four are true it returns the complete mapping;
    when any is false it aborts by itself with [SystemExit], and the message
    names every false invariant, in the order of the keys. *)
Theorem assert_text_invariants_all_or_abort (cfg : Config) (pdf : Document)
    (p1 p2 : string) :
  pdftotext pdf 1 = Some p1 → pdftotext pdf 2 = Some p2 →
  ∃ b1 b2 b3 b4 : bool,
    let flags := [ ("page1_footer_present", b1);
                   ("page2_footer_present", b2);
                   ("page1_no_how_this_report_works", b3);
                   ("page2_has_how_this_report_works", b4) ] in
    (b1 = true ↔ is_substring (page1_footer_contains (text_invariants cfg)) p1) ∧
    (b2 = true ↔ is_substring (page2_footer_contains (text_invariants cfg)) p2) ∧
    (b3 = true ↔ ¬ is_substring (must_start_on_page2 (text_invariants cfg)) p1) ∧
    (b4 = true ↔ is_substring (must_start_on_page2 (text_invariants cfg)) p2) ∧
    assert_text_invariants cfg pdf =
      if b1 && b2 && b3 && b4 then Ok flags
      else Raise (SystemExit (TextInvariantFailures (false_keys flags))).
Proof.
  intros H1 H2.
  exists (str_in (page1_footer_contains (text_invariants cfg)) p1),
         (str_in (page2_footer_contains (text_invariants cfg)) p2),
         (negb (str_in (must_start_on_page2 (text_invariants cfg)) p1)),
         (str_in (must_start_on_page2 (text_invariants cfg)) p2).
  split_and!; try apply str_in_spec.
  - rewrite negb_true_iff, <- str_in_spec. by destruct (str_in _ p1).
  - unfold assert_text_invariants, extract_page_text. rewrite H1, H2. simpl.
    rewrite <- failed_keys_false_keys. unfold text_flags.
    destruct (str_in (page1_footer_contains _) p1),
             (str_in (page2_footer_contains _) p2),
             (str_in (must_start_on_page2 _) p1),
             (str_in (must_start_on_page2 _) p2); reflexivity.
Qed.

Lemma assert_text_invariants_all_or_abort_witness :
  pdftotext broken_pdf 1 = Some "How this report works. Page 1 of 2" ∧
  pdftotext broken_pdf 2 = Some "How this report works, continued. Page 2 of 2" ∧
  ∃ b1 b2 b3 b4 : bool,
    let flags := [ ("page1_footer_present", b1);
                   ("page2_footer_present", b2);
                   ("page1_no_how_this_report_works", b3);
                   ("page2_has_how_this_report_works", b4) ] in
    (b1 = true ↔ is_substring "Page 1 of" "How this report works. Page 1 of 2") ∧
    (b2 = true ↔ is_substring "Page 2 of"
                   "How this report works, continued. Page 2 of 2") ∧
    (b3 = true ↔ ¬ is_substring "How this report works"
                     "How this report works. Page 1 of 2") ∧
    (b4 = true ↔ is_substring "How this report works"
                   "How this report works, continued. Page 2 of 2") ∧
    assert_text_invariants sample_cfg broken_pdf =
      if b1 && b2 && b3 && b4 then Ok flags
      else Raise (SystemExit (TextInvariantFailures (false_keys flags))).
Proof.
  split; [reflexivity |]. split; [reflexivity |].
  exact (assert_text_invariants_all_or_abort sample_cfg broken_pdf _ _
           eq_refl eq_refl).
Defined.

(** ** The calibrate workflow *)

Lemma failed_keys_nonempty items k :
  (k, false) ∈ items → failed_keys items ≠ [].
Proof.
  induction items as [| [k' v] items IH]; intros Hin; [by apply elem_of_nil in Hin |].
  simpl. destruct v; [| done].
  apply elem_of_cons in Hin as [Heq | Hin]; [congruence | by apply IH].
Qed.

Lemma assert_text_invariants_raises cfg pdf p1 p2 k :
  pdftotext pdf 1 = Some p1 → pdftotext pdf 2 = Some p2 →
  (k, false) ∈ text_flags (text_invariants cfg) p1 p2 →
  failed_keys (text_flags (text_invariants cfg) p1 p2) ≠ [] ∧
  assert_text_invariants cfg pdf =
    Raise (SystemExit (TextInvariantFailures
                         (failed_keys (text_flags (text_invariants cfg) p1 p2)))).
Proof.
  intros H1 H2 Hk. pose proof (failed_keys_nonempty _ _ Hk) as Hne.
  split; [done |].
  unfold assert_text_invariants, extract_page_text. rewrite H1, H2.
  unfold mbind, result_bind.
  by destruct (failed_keys (text_flags (text_invariants cfg) p1 p2)).
Qed.

Lemma run_calibrate_render_fails env cfg w e :
  http_post env (endpoint cfg) (fixture cfg) = Raise e →
  run_calibrate env cfg w =
  (Raise e, (mkdir (path_join (ROOT env) (baseline_dir cfg)) w).2).
Proof.
  intros Hpost. unfold run_calibrate, mbind, IO_bind, generate_pdf, lift. simpl.
  by rewrite Hpost.
Qed.

Lemma run_calibrate_assert_fails env cfg w pdf e :
  http_post env (endpoint cfg) (fixture cfg) = Ok pdf →
  assert_text_invariants cfg pdf = Raise e →
  run_calibrate env cfg w =
  (Raise e, (mkdir (path_join (ROOT env) (baseline_dir cfg)) w).2).
Proof.
  intros Hpost Hassert.
  unfold run_calibrate, mbind, IO_bind, generate_pdf, lift. simpl.
  by rewrite Hpost, Hassert.
Qed.

(** C4.  When a text invariant of the rendered document is false, the
    calibrate workflow aborts with a nonzero exit status, and neither an
    image file nor the configuration is written. *)
Theorem run_calibrate_refuses_broken_render (env : Env) (cfg : Config) (w : World)
    (pdf : Document) (p1 p2 : string) :
  http_post env (endpoint cfg) (fixture cfg) = Ok pdf →
  pdftotext pdf 1 = Some p1 → pdftotext pdf 2 = Some p2 →
  (∃ k, (k, false) ∈ text_flags (text_invariants cfg) p1 p2) →
  ∃ (failed : list string) (w' : World),
    run_calibrate env cfg w = (Raise (SystemExit (TextInvariantFailures failed)), w') ∧
    failed ≠ [] ∧
    exit_status (run_calibrate env cfg w).1 ≠ 0%Z ∧
    files w' = files w ∧ config_file w' = config_file w ∧ stdout w' = stdout w.
Proof.
  intros Hpost H1 H2 [k Hk].
  destruct (assert_text_invariants_raises cfg pdf p1 p2 k H1 H2 Hk) as [Hne Hraise].
  eexists _, _.
  rewrite (run_calibrate_assert_fails env cfg w pdf _ Hpost Hraise).
  split_and!; done.
Qed.

Lemma run_calibrate_refuses_broken_render_witness :
  http_post (sample_env broken_pdf) (endpoint sample_cfg) (fixture sample_cfg) =
    Ok broken_pdf ∧
  pdftotext broken_pdf 1 = Some "How this report works. Page 1 of 2" ∧
  pdftotext broken_pdf 2 = Some "How this report works, continued. Page 2 of 2" ∧
  (∃ k, (k, false) ∈ text_flags (text_invariants sample_cfg)
                        "How this report works. Page 1 of 2"
                        "How this report works, continued. Page 2 of 2") ∧
  ∃ (failed : list string) (w' : World),
    run_calibrate (sample_env broken_pdf) sample_cfg calibrated_world =
      (Raise (SystemExit (TextInvariantFailures failed)), w') ∧
    failed ≠ [] ∧
    exit_status (run_calibrate (sample_env broken_pdf) sample_cfg calibrated_world).1
      ≠ 0%Z ∧
    files w' = files calibrated_world ∧
    config_file w' = config_file calibrated_world ∧
    stdout w' = stdout calibrated_world.
Proof.
  assert (Hk : ∃ k, (k, false) ∈ text_flags (text_invariants sample_cfg)
                        "How this report works. Page 1 of 2"
                        "How this report works, continued. Page 2 of 2").
  { exists "page1_no_how_this_report_works". vm_compute.
    do 2 apply list_elem_of_further. apply list_elem_of_here. }
  split; [reflexivity |]. split; [reflexivity |]. split; [reflexivity |].
  split; [exact Hk |].
  exact (run_calibrate_refuses_broken_render (sample_env broken_pdf) sample_cfg
           calibrated_world broken_pdf _ _ eq_refl eq_refl eq_refl Hk).
Defined.

(** ** Doubles *)

Lemma round_half_even_comp x y : (x == y)%Q → round_half_even x = round_half_even y.
Proof.
  intros H. unfold round_half_even. rewrite (Qfloor_comp x y H).
  assert (Hc : (x - inject_Z (Qfloor y) ?= 1 # 2)%Q = (y - inject_Z (Qfloor y) ?= 1 # 2)%Q).
  { apply Qcompare_comp; [by rewrite H | reflexivity]. }
  by rewrite Hc.
Qed.

Lemma round_half_even_Z k : round_half_even (inject_Z k) = k.
Proof.
  unfold round_half_even. rewrite Qfloor_Z.
  destruct (Qcompare_spec (inject_Z k - inject_Z k) (1 # 2)) as [H | H | H];
    [lra | done | lra].
Qed.

Lemma round_half_even_bounds x :
  (Qfloor x ≤ round_half_even x ≤ Qfloor x + 1)%Z.
Proof.
  unfold round_half_even.
  destruct (_ ?= _)%Q; [destruct (Z.even _) | |]; lia.
Qed.

Lemma round_half_even_mono x y :
  (x <= y)%Q → (round_half_even x ≤ round_half_even y)%Z.
Proof.
  intros Hxy. pose proof (Qfloor_resp_le x y Hxy) as Hf.
  pose proof (round_half_even_bounds x) as Hx.
  pose proof (round_half_even_bounds y) as Hy.
  destruct (Z.eq_dec (Qfloor x) (Qfloor y)) as [Heq | Hne]; [| lia].
  unfold round_half_even in *. rewrite <- Heq in *.
  destruct (Qcompare_spec (x - inject_Z (Qfloor x)) (1 # 2)) as [H1 | H1 | H1];
    destruct (Qcompare_spec (y - inject_Z (Qfloor x)) (1 # 2)) as [H2 | H2 | H2];
    try lia; lra.
Qed.

(** ** Powers of two *)

Lemma pow2_pos e : (0 < 2 ^ e)%Q.
Proof. by apply Qpower_0_lt. Qed.

Lemma pow2_plus a b : (2 ^ (a + b) == 2 ^ a * 2 ^ b)%Q.
Proof. by apply Qpower_plus. Qed.

Lemma pow2_Z n : (0 ≤ n)%Z → (inject_Z (2 ^ n) == 2 ^ n)%Q.
Proof. intros Hn. by rewrite (Zpower_Qpower 2 n Hn). Qed.

Lemma pow2_le a b : (a ≤ b)%Z → (2 ^ a <= 2 ^ b)%Q.
Proof. intros H. by apply Qpower_le_compat_l. Qed.

Lemma pow2_lt_inv a b : (2 ^ a < 2 ^ b)%Q → (a < b)%Z.
Proof. intros H. by apply (Qpower_lt_compat_l_inv 2). Qed.

Lemma ilog2_spec x :
  (0 < x)%Q → (2 ^ ilog2 x <= x)%Q ∧ (x < 2 ^ (ilog2 x + 1))%Q.
Proof.
  intros Hx. destruct x as [p q]. unfold Qlt in Hx. simpl in Hx.
  rewrite Z.mul_1_r in Hx.
  unfold ilog2. cbn [Qnum Qden].
  set (a := Z.log2 p). set (b := Z.log2 (Z.pos q)).
  destruct (Z.log2_spec p Hx) as [Hp1 Hp2].
  destruct (Z.log2_spec (Z.pos q) ltac:(lia)) as [Hq1 Hq2].
  fold a in Hp1, Hp2. fold b in Hq1, Hq2.
  assert (Ha : (0 ≤ a)%Z) by apply Z.log2_nonneg.
  assert (Hb : (0 ≤ b)%Z) by apply Z.log2_nonneg.
  assert (Hpq : (p # q == inject_Z p / inject_Z (Z.pos q))%Q) by apply Qmake_Qdiv.
  assert (Hqpos : (0 < inject_Z (Z.pos q))%Q) by (unfold Qlt; simpl; lia).
  (* the four integer bounds, as rationals *)
  assert (Hp1' : (2 ^ a <= inject_Z p)%Q).
  { rewrite <- pow2_Z by done. by rewrite <- Zle_Qle. }
  assert (Hp2' : (inject_Z p < 2 ^ (a + 1))%Q).
  { rewrite <- pow2_Z by lia. rewrite <- Zlt_Qlt. by rewrite <- Z.add_1_r in Hp2. }
  assert (Hq1' : (2 ^ b <= inject_Z (Z.pos q))%Q).
  { rewrite <- pow2_Z by done. by rewrite <- Zle_Qle. }
  assert (Hq2' : (inject_Z (Z.pos q) < 2 ^ (b + 1))%Q).
  { rewrite <- pow2_Z by lia. rewrite <- Zlt_Qlt. by rewrite <- Z.add_1_r in Hq2. }
  (* bounds on the quotient *)
  assert (Hlow : (2 ^ (a - b - 1) <= p # q)%Q).
  { rewrite Hpq. apply Qle_shift_div_l; [done |].
    apply Qle_trans with (2 ^ (a - b - 1) * 2 ^ (b + 1))%Q.
    - apply Qmult_le_l; [apply pow2_pos | by apply Qlt_le_weak].
    - rewrite <- pow2_plus. by replace (a - b - 1 + (b + 1))%Z with a by lia. }
  assert (Hhigh : (p # q < 2 ^ (a - b + 1))%Q).
  { rewrite Hpq. apply Qlt_shift_div_r; [done |].
    apply Qlt_le_trans with (2 ^ (a + 1))%Q; [done |].
    replace (a + 1)%Z with (a - b + 1 + b)%Z at 1 by lia.
    rewrite pow2_plus. apply Qmult_le_l; [apply pow2_pos | done]. }
  destruct (Qle_bool (2 ^ (a - b)) (p # q)) eqn:Htest.
  - apply Qle_bool_iff in Htest. by split.
  - split; [done |]. replace (a - b - 1 + 1)%Z with (a - b)%Z by lia.
    apply Qnot_le_lt. intros Hle. apply Qle_bool_iff in Hle. congruence.
Qed.

Lemma ilog2_mono x y : (0 < x)%Q → (x <= y)%Q → (ilog2 x ≤ ilog2 y)%Z.
Proof.
  intros Hx Hxy.
  destruct (ilog2_spec x Hx) as [Hx1 _].
  destruct (ilog2_spec y) as [_ Hy2]; [by eapply Qlt_le_trans |].
  assert (H : (2 ^ ilog2 x < 2 ^ (ilog2 y + 1))%Q).
  { eapply Qle_lt_trans; [exact Hx1 |]. by eapply Qle_lt_trans. }
  apply pow2_lt_inv in H. lia.
Qed.

(** ** Rounding to a grid *)

Lemma round_to_mono u x y :
  (0 < u)%Q → (x <= y)%Q → (round_to u x <= round_to u y)%Q.
Proof.
  intros Hu Hxy. unfold round_to.
  apply Qmult_le_compat_r; [| by apply Qlt_le_weak].
  rewrite <- Zle_Qle. apply round_half_even_mono.
  apply Qmult_le_compat_r; [done |]. by apply Qlt_le_weak, Qinv_lt_0_compat.
Qed.

Lemma round_to_grid u k :
  (0 < u)%Q → (round_to u (inject_Z k * u) == inject_Z k * u)%Q.
Proof.
  intros Hu. unfold round_to.
  rewrite (round_half_even_comp (inject_Z k * u / u) (inject_Z k)).
  - by rewrite round_half_even_Z.
  - apply Qdiv_mult_l. intros H0. rewrite H0 in Hu. by apply Qlt_irrefl in Hu.
Qed.

Lemma round_to_le_grid u k x :
  (0 < u)%Q → (x <= inject_Z k * u)%Q → (round_to u x <= inject_Z k * u)%Q.
Proof.
  intros Hu Hx. rewrite <- (round_to_grid u k Hu). by apply round_to_mono.
Qed.

Lemma round_to_ge_grid u k x :
  (0 < u)%Q → (inject_Z k * u <= x)%Q → (inject_Z k * u <= round_to u x)%Q.
Proof.
  intros Hu Hx. rewrite <- (round_to_grid u k Hu). by apply round_to_mono.
Qed.

Lemma ulp_pos x : (0 < ulp x)%Q.
Proof. apply pow2_pos. Qed.

Lemma pow2_grid e e' :
  (e' ≤ e)%Z → (2 ^ e == inject_Z (2 ^ (e - e')) * 2 ^ e')%Q.
Proof.
  intros H. rewrite pow2_Z by lia. rewrite <- pow2_plus.
  by replace (e - e' + e')%Z with e by lia.
Qed.

Lemma round_pos_nonneg x : (0 <= x)%Q → (0 <= round_to (ulp x) x)%Q.
Proof.
  intros Hx. pose proof (round_to_ge_grid (ulp x) 0 x (ulp_pos x)) as H.
  rewrite Qmult_0_l in H. by apply H.
Qed.

Lemma round_pos_mono x y :
  (0 < x)%Q → (x <= y)%Q → (round_to (ulp x) x <= round_to (ulp y) y)%Q.
Proof.
  intros Hx Hxy.
  assert (Hy : (0 < y)%Q) by (by eapply Qlt_le_trans).
  pose proof (ilog2_mono x y Hx Hxy) as Hlog.
  destruct (Z.eq_dec (ilog2 x) (ilog2 y)) as [Heq | Hne].
  - unfold ulp. rewrite Heq. apply round_to_mono; [apply pow2_pos | done].
  - destruct (ilog2_spec x Hx) as [_ Hx2]. destruct (ilog2_spec y Hy) as [Hy1 _].
    apply Qle_trans with (2 ^ ilog2 y)%Q.
    + rewrite (pow2_grid (ilog2 y) (ilog2 x - 52)) by lia.
      apply round_to_le_grid; [apply ulp_pos |].
      rewrite <- (pow2_grid (ilog2 y) (ilog2 x - 52)) by lia.
      apply Qlt_le_weak. eapply Qlt_le_trans; [exact Hx2 |]. apply pow2_le. lia.
    + rewrite (pow2_grid (ilog2 y) (ilog2 y - 52)) by lia.
      apply round_to_ge_grid; [apply ulp_pos |].
      by rewrite <- (pow2_grid (ilog2 y) (ilog2 y - 52)) by lia.
Qed.

(** ** The nearest double *)

Lemma binary64_cases x :
  ((x == 0)%Q ∧ binary64 x = 0%Q) ∨
  ((0 < x)%Q ∧ (binary64 x == round_to (ulp x) x)%Q) ∨
  ((x < 0)%Q ∧ (binary64 x == - round_to (ulp (- x)) (- x))%Q).
Proof.
  unfold binary64. destruct x as [[| p | p] q]; cbn [Qnum].
  - left. split; [by unfold Qeq | done].
  - right; left. split; [by unfold Qlt | apply Qred_correct].
  - right; right. split; [by unfold Qlt | apply Qred_correct].
Qed.

Lemma binary64_mono x y : (x <= y)%Q → (binary64 x <= binary64 y)%Q.
Proof.
  intros Hxy.
  destruct (binary64_cases x) as [[Hx ->] | [[Hx ->] | [Hx ->]]];
    destruct (binary64_cases y) as [[Hy ->] | [[Hy ->] | [Hy ->]]];
    try lra.
  - apply round_pos_nonneg. lra.
  - by apply round_pos_mono.
  - pose proof (round_pos_nonneg (- x)). lra.
  - pose proof (round_pos_nonneg (- x)). pose proof (round_pos_nonneg y). lra.
  - apply Qopp_le_compat. apply round_pos_mono; lra.
Qed.

Lemma binary64_nonneg x : (0 <= x)%Q → (0 <= binary64 x)%Q.
Proof. intros Hx. apply (binary64_mono 0 x Hx). Qed.

Lemma binary64_comp x y : (x == y)%Q → binary64 x = binary64 y.
Proof.
  intros Hxy.
  assert (Heq : (binary64 x == binary64 y)%Q).
  { apply Qle_antisym; apply binary64_mono; rewrite Hxy; apply Qle_refl. }
  assert (Hred : ∀ z, binary64 z = Qred (binary64 z)).
  { intros z. unfold binary64. destruct (Qnum z); [done | |];
      symmetry; apply Qred_complete, Qred_correct. }
  rewrite (Hred x), (Hred y). by apply Qred_complete.
Qed.

Lemma float_of_nat_pos n : 0 < n → (0 < float_of_nat n)%Q.
Proof.
  intros Hn. apply Qlt_le_trans with (binary64 1); [done |].
  apply binary64_mono. unfold Q_of_nat. rewrite <- (Zle_Qle 1). lia.
Qed.

Lemma float_of_nat_mono m n : m ≤ n → (float_of_nat m <= float_of_nat n)%Q.
Proof. intros H. by apply binary64_mono, Q_of_nat_le. Qed.

(** [100.0 * changed / total] on doubles, as a function of the two counts. *)
Lemma double_percent_mono c1 c2 n :
  c1 ≤ c2 → 0 < n →
  (fdiv (fmul 100 (float_of_nat c1)) (float_of_nat n) <=
   fdiv (fmul 100 (float_of_nat c2)) (float_of_nat n))%Q.
Proof.
  intros Hc Hn. unfold fdiv, fmul. apply binary64_mono.
  apply Qmult_le_compat_r.
  - apply binary64_mono. apply Qmult_le_l; [done |]. by apply float_of_nat_mono.
  - apply Qlt_le_weak, Qinv_lt_0_compat. by apply float_of_nat_pos.
Qed.

Lemma double_percent_zero n : fdiv (fmul 100 (float_of_nat 0)) (float_of_nat n) = 0%Q.
Proof. reflexivity. Qed.

Lemma diff_percent_double_row_major a b t :
  diff_percent_double a b t =
  if decide (size a ≠ size b) then Ok 100%Q
  else
    changed ← scan_in_order (load a) (load b) t (coordinates (width a) (height a)) 0;
    if width a * height a =? 0 then Raise ZeroDivisionError
    else Ok (fdiv (fmul 100 (float_of_nat changed)) (float_of_nat (width a * height a))).
Proof.
  unfold diff_percent_double, width, height, coordinates.
  destruct (decide (size a ≠ size b)); [done |].
  destruct (size a) as [w h]; simpl.
  by rewrite scan_rows_in_order.
Qed.

Lemma diff_percent_double_value a b t :
  valid_image a → valid_image b → size a = size b →
  diff_percent_double a b t =
  Ok (fdiv (fmul 100 (float_of_nat
                        (length (filter (λ xy, pixel_changed a b t xy)
                                   (coordinates (width a) (height a))))))
           (float_of_nat (width a * height a))).
Proof.
  intros Ha Hb Hsz. rewrite diff_percent_double_row_major.
  destruct (decide (size a ≠ size b)) as [Hne |]; [by destruct Hne |].
  rewrite (scan_in_order_count a b t _ 0 Ha Hb Hsz (coordinates_in_range _ _)).
  cbn [mbind result_bind].
  pose proof (valid_image_total_pos a Ha) as Hpos.
  by destruct (Nat.eqb_spec (width a * height a) 0) as [H0 | _]; [lia |].
Qed.

Lemma diff_percent_double_total a b t :
  valid_image a → valid_image b → ∃ d, diff_percent_double a b t = Ok d.
Proof.
  intros Ha Hb. destruct (decide (size a = size b)) as [Hsz | Hne].
  - eexists. by apply diff_percent_double_value.
  - exists 100%Q. unfold diff_percent_double.
    by destruct (decide (size a ≠ size b)).
Qed.

(** ** The test workflow *)

Lemma diff_percent_total a b t :
  valid_image a → valid_image b → ∃ d, diff_percent a b t = Ok d.
Proof.
  intros Ha Hb. destruct (decide (size a = size b)) as [Hsz | Hne].
  - eexists. by apply diff_percent_value.
  - exists 100%Q. by apply size_mismatch_gives_100.
Qed.

Lemma dict_set_keys key value d k :
  k ∈ (dict_set key value d).*1 ↔ k = key ∨ k ∈ d.*1.
Proof.
  induction d as [| [k' v'] d IH]; simpl.
  - rewrite list_elem_of_singleton. split; [auto | intros [H | H]; [done |]].
    by apply elem_of_nil in H.
  - destruct (decide (k' = key)) as [-> | Hne]; simpl.
    + rewrite elem_of_cons. tauto.
    + rewrite !elem_of_cons, IH. tauto.
Qed.

Lemma test_pages_missing store pdf bd max_allowed t page ps failures summary :
  store !! baseline_png bd page = None →
  test_pages store pdf bd max_allowed t (page :: ps) failures summary =
  test_pages store pdf bd max_allowed t ps
    (failures ++ [MissingBaselineImage (baseline_png bd page)]) summary.
Proof. intros H. cbn [test_pages]. unfold baseline_png in H. by rewrite H. Qed.

Lemma test_pages_report store pdf bd max_allowed t ps failures summary :
  valid_store store → valid_document pdf → pages_rasterise store pdf bd ps →
  ∃ summary',
    test_pages store pdf bd max_allowed t ps failures summary =
      Ok (failures ++ (ps ≫= page_failures store pdf bd max_allowed t), summary') ∧
    ∀ k, k ∈ summary'.*1 ↔
         k ∈ summary.*1 ∨
         ∃ page, page ∈ ps ∧ is_Some (store !! baseline_png bd page) ∧
                 k = summary_key page.
Proof.
  intros Hstore Hpdf. revert failures summary.
  induction ps as [| page ps IH]; intros failures summary Hras.
  - exists summary. split.
    + simpl. by rewrite app_nil_r.
    + intros k. split; [auto | intros [H | (page & H & _)]; [done |]].
      by apply elem_of_nil in H.
  - assert (Hras' : pages_rasterise store pdf bd ps).
    { intros p Hp. apply Hras. by right. }
    rewrite bind_cons.
    destruct (store !! baseline_png bd page) as [base |] eqn:Hbase.
    + destruct (Hras page) as [cur Hcur]; [by left | by rewrite Hbase |].
      destruct (diff_percent_double_total base cur t) as [pct Hpct]; [by eauto ..|].
      destruct (IH (if Qlt_le_dec max_allowed pct
                    then failures ++ [DiffExceeds page pct max_allowed]
                    else failures)
                   (dict_set (summary_key page) (round_4 pct) summary) Hras')
        as (summary' & Heq & Hkeys).
      assert (Hpf : page_failures store pdf bd max_allowed t page =
                    if Qlt_le_dec max_allowed pct
                    then [DiffExceeds page pct max_allowed] else []).
      { unfold page_failures. by rewrite Hbase, Hcur, Hpct. }
      exists summary'. split.
      * cbn [test_pages]. unfold baseline_png in Hbase. rewrite Hbase.
        unfold extract_page_png. rewrite Hcur. cbn [mbind result_bind].
        rewrite Hpct. cbn [mbind result_bind]. rewrite Heq, Hpf.
        destruct (Qlt_le_dec max_allowed pct); by rewrite <- ?app_assoc.
      * intros k. rewrite Hkeys, dict_set_keys. split.
        -- intros [[-> | H] | (p & Hp & Hs & ->)]; [| by left |].
           ++ right. exists page. split_and!; [by left | by rewrite Hbase | done].
           ++ right. exists p. split_and!; [by right | done | done].
        -- intros [H | (p & Hp & Hs & ->)]; [by left; right |].
           apply elem_of_cons in Hp as [-> | Hp]; [by left; left |].
           right. by exists p.
    + rewrite (test_pages_missing _ _ _ _ _ _ _ _ _ Hbase).
      destruct (IH (failures ++ [MissingBaselineImage (baseline_png bd page)])
                   summary Hras') as (summary' & Heq & Hkeys).
      assert (Hpf : page_failures store pdf bd max_allowed t page =
                    [MissingBaselineImage (baseline_png bd page)]).
      { unfold page_failures. by rewrite Hbase. }
      exists summary'. split.
      * rewrite Heq, Hpf. by rewrite <- app_assoc.
      * intros k. rewrite Hkeys. split.
        -- intros [H | (p & Hp & Hs & ->)]; [by left |].
           right. exists p. split_and!; [by right | done | done].
        -- intros [H | (p & Hp & Hs & ->)]; [by left |].
           apply elem_of_cons in Hp as [-> | Hp].
           ++ rewrite Hbase in Hs. by destruct Hs.
           ++ right. by exists p.
Qed.


Lemma run_test_dir_missing env cfg w :
  baseline_dir_of env cfg ∉ dirs w →
  run_test env cfg w =
  (Raise (SystemExit (BaselineDirectoryMissing (baseline_dir_of env cfg))), w).
Proof.
  intros Hdir. unfold run_test, mbind, IO_bind, dir_exists.
  fold (baseline_dir_of env cfg). by rewrite bool_decide_eq_false_2.
Qed.

Lemma run_test_text_gate env cfg w :
  baseline_dir_of env cfg ∈ dirs w →
  run_test env cfg w =
  match http_post env (endpoint cfg) (fixture cfg) with
  | Raise e => (Raise e, w)
  | Ok pdf =>
      match assert_text_invariants cfg pdf with
      | Raise e => (Raise e, w)
      | Ok _ =>
          match test_pages (files w) pdf (baseline_dir_of env cfg) (max_allowed_of cfg)
                  (channel_threshold_of cfg) (pages cfg) [] [] with
          | Raise e => (Raise e, w)
          | Ok (failures, summary) =>
              match failures with
              | [] => (Ok 0%Z, (print PrintedPassed
                                  (print (PrintedSummary summary) w).2).2)
              | _ :: _ => (Raise (SystemExit (PdfRegressionFailed failures)),
                           (print (PrintedSummary summary) w).2)
              end
          end
      end
  end.
Proof.
  intros Hdir. unfold run_test, mbind, IO_bind, dir_exists, generate_pdf, lift.
  fold (baseline_dir_of env cfg) (max_allowed_of cfg) (channel_threshold_of cfg).
  rewrite bool_decide_eq_true_2 by done. cbn [negb].
  destruct (http_post env (endpoint cfg) (fixture cfg)) as [pdf | e]; [| done].
  destruct (assert_text_invariants cfg pdf) as [flags | e]; [| done].
  destruct (test_pages _ _ _ _ _ _ _ _) as [[failures summary] | e]; [| done].
  by destruct failures.
Qed.

(** C5.  In the test workflow a missing baseline directory is fatal at once,
    before anything is rendered, with an error that is not the threshold
    failure; a missing baseline image of one page is recorded for that page
    and the loop goes on, so that every configured page ends up either with
    its missing-baseline entry or with its diff percentage in the summary. *)
Theorem run_test_baseline_state_errors (env0 env : Env) (cfg : Config) (w0 w : World)
    (pdf : Document) (flags : list (string * bool)) :
  baseline_dir_of env0 cfg ∉ dirs w0 →
  baseline_dir_of env cfg ∈ dirs w →
  http_post env (endpoint cfg) (fixture cfg) = Ok pdf →
  assert_text_invariants cfg pdf = Ok flags →
  valid_store (files w) → valid_document pdf →
  pages_rasterise (files w) pdf (baseline_dir_of env cfg) (pages cfg) →
  (run_test env0 cfg w0 =
     (Raise (SystemExit (BaselineDirectoryMissing (baseline_dir_of env0 cfg))), w0) ∧
   ∀ failures, BaselineDirectoryMissing (baseline_dir_of env0 cfg) ≠
               PdfRegressionFailed failures) ∧
  (∀ store page ps failures summary,
     store !! baseline_png (baseline_dir_of env cfg) page = None →
     test_pages store pdf (baseline_dir_of env cfg) (max_allowed_of cfg)
       (channel_threshold_of cfg) (page :: ps) failures summary =
     test_pages store pdf (baseline_dir_of env cfg) (max_allowed_of cfg)
       (channel_threshold_of cfg) ps
       (failures ++ [MissingBaselineImage (baseline_png (baseline_dir_of env cfg) page)])
       summary) ∧
  ∃ failures summary,
    test_pages (files w) pdf (baseline_dir_of env cfg) (max_allowed_of cfg)
      (channel_threshold_of cfg) (pages cfg) [] [] = Ok (failures, summary) ∧
    (run_test env cfg w).1 =
      match failures with
      | [] => Ok 0%Z
      | _ :: _ => Raise (SystemExit (PdfRegressionFailed failures))
      end ∧
    PrintedSummary summary ∈ stdout (run_test env cfg w).2 ∧
    ∀ page, page ∈ pages cfg →
      (files w !! baseline_png (baseline_dir_of env cfg) page = None ∧
       MissingBaselineImage (baseline_png (baseline_dir_of env cfg) page) ∈ failures) ∨
      (is_Some (files w !! baseline_png (baseline_dir_of env cfg) page) ∧
       summary_key page ∈ summary.*1).
Proof.
  intros Hdir0 Hdir Hpost Hflags Hstore Hpdf Hras. split_and!.
  - by apply run_test_dir_missing.
  - done.
  - intros store page ps failures summary Hnone. by apply test_pages_missing.
  - destruct (test_pages_report (files w) pdf (baseline_dir_of env cfg)
                (max_allowed_of cfg) (channel_threshold_of cfg) (pages cfg) [] []
                Hstore Hpdf Hras) as (summary & Heq & Hkeys).
    rewrite app_nil_l in Heq.
    eexists _, summary. split; [exact Heq |].
    rewrite (run_test_text_gate env cfg w Hdir), Hpost, Hflags, Heq.
    split_and!.
    + by destruct (pages cfg ≫= _).
    + destruct (pages cfg ≫= _); simpl; rewrite ?elem_of_app, list_elem_of_singleton.
      * left. right. done.
      * right. done.
    + intros page Hpage.
      destruct (files w !! baseline_png (baseline_dir_of env cfg) page)
        as [base |] eqn:Hbase.
      * right. split; [done |]. apply Hkeys. right. exists page.
        by rewrite Hbase.
      * left. split; [done |]. apply list_elem_of_bind. exists page.
        split; [| done]. unfold page_failures. rewrite Hbase.
        apply list_elem_of_here.
Qed.

Lemma sample_baseline_valid : valid_image sample_baseline.
Proof. valid_sample. Qed.

Lemma sample_current_valid : valid_image sample_current.
Proof. valid_sample. Qed.

Lemma sample_pdf_valid : valid_document sample_pdf.
Proof.
  intros page im. simpl.
  destruct (page =? 1)%Z; [intros [= <-]; apply sample_baseline_valid |].
  destruct (page =? 2)%Z; [intros [= <-]; apply sample_current_valid | done].
Qed.

Lemma sample_pdf_rasterises store bd :
  pages_rasterise store sample_pdf bd (pages sample_cfg).
Proof.
  intros page Hpage _. simpl in Hpage.
  apply elem_of_cons in Hpage as [-> | Hpage]; [by eexists |].
  apply list_elem_of_singleton in Hpage as ->. by eexists.
Qed.

Lemma partial_world_valid : valid_store (files partial_world).
Proof.
  intros p im H. simpl in H. apply lookup_singleton_Some in H as [_ <-].
  apply sample_baseline_valid.
Qed.

Lemma calibrated_world_valid : valid_store (files calibrated_world).
Proof.
  intros p im H. simpl in H.
  apply lookup_insert_Some in H as [[_ <-] | [_ H]]; [apply sample_baseline_valid |].
  apply lookup_singleton_Some in H as [_ <-]. apply sample_baseline_valid.
Qed.

Lemma run_test_baseline_state_errors_witness :
  let env := sample_env sample_pdf in
  let cfg := sample_cfg in
  let flags := [ ("page1_footer_present", true); ("page2_footer_present", true);
                 ("page1_no_how_this_report_works", true);
                 ("page2_has_how_this_report_works", true) ] in
  ((baseline_dir_of env cfg ∉ dirs fresh_world) ∧
   (baseline_dir_of env cfg ∈ dirs partial_world) ∧
   http_post env (endpoint cfg) (fixture cfg) = Ok sample_pdf ∧
   assert_text_invariants cfg sample_pdf = Ok flags ∧
   valid_store (files partial_world) ∧ valid_document sample_pdf ∧
   pages_rasterise (files partial_world) sample_pdf (baseline_dir_of env cfg) (pages cfg)) ∧
  (run_test env cfg fresh_world =
     (Raise (SystemExit (BaselineDirectoryMissing (baseline_dir_of env cfg))),
      fresh_world) ∧
   ∀ failures, BaselineDirectoryMissing (baseline_dir_of env cfg) ≠
               PdfRegressionFailed failures) ∧
  (∀ store page ps failures summary,
     store !! baseline_png (baseline_dir_of env cfg) page = None →
     test_pages store sample_pdf (baseline_dir_of env cfg) (max_allowed_of cfg)
       (channel_threshold_of cfg) (page :: ps) failures summary =
     test_pages store sample_pdf (baseline_dir_of env cfg) (max_allowed_of cfg)
       (channel_threshold_of cfg) ps
       (failures ++ [MissingBaselineImage (baseline_png (baseline_dir_of env cfg) page)])
       summary) ∧
  ∃ failures summary,
    test_pages (files partial_world) sample_pdf (baseline_dir_of env cfg)
      (max_allowed_of cfg) (channel_threshold_of cfg) (pages cfg) [] [] =
      Ok (failures, summary) ∧
    (run_test env cfg partial_world).1 =
      match failures with
      | [] => Ok 0%Z
      | _ :: _ => Raise (SystemExit (PdfRegressionFailed failures))
      end ∧
    PrintedSummary summary ∈ stdout (run_test env cfg partial_world).2 ∧
    ∀ page, page ∈ pages cfg →
      (files partial_world !! baseline_png (baseline_dir_of env cfg) page = None ∧
       MissingBaselineImage (baseline_png (baseline_dir_of env cfg) page) ∈ failures) ∨
      (is_Some (files partial_world !! baseline_png (baseline_dir_of env cfg) page) ∧
       summary_key page ∈ summary.*1).
Proof.
  intros env cfg flags.
  assert (H0 : baseline_dir_of env cfg ∉ dirs fresh_world)
    by apply not_elem_of_empty.
  assert (H1 : baseline_dir_of env cfg ∈ dirs partial_world)
    by (vm_compute; reflexivity).
  assert (H2 : http_post env (endpoint cfg) (fixture cfg) = Ok sample_pdf)
    by reflexivity.
  assert (H3 : assert_text_invariants cfg sample_pdf = Ok flags) by reflexivity.
  pose proof partial_world_valid as H4.
  pose proof sample_pdf_valid as H5.
  pose proof (sample_pdf_rasterises (files partial_world) (baseline_dir_of env cfg))
    as H6.
  split; [by split_and! |].
  exact (run_test_baseline_state_errors env env cfg fresh_world partial_world
           sample_pdf flags H0 H1 H2 H3 H4 H5 H6).
Defined.

Example run_test_partial_world :
  (run_test (sample_env sample_pdf) sample_cfg partial_world).1 =
  Raise (SystemExit (PdfRegressionFailed
    [MissingBaselineImage (baseline_png "/repo/tests/pdf_regression/baseline" 2)])).
Proof. vm_compute. reflexivity. Qed.





Example run_test_calibrated_world_passes :
  (run_test (sample_env sample_pdf) sample_cfg calibrated_world).1 = Ok 0%Z.
Proof. vm_compute. reflexivity. Qed.

(** At the boundary the comparison is one of doubles: five pixels of six
    give the double nearest to 500/6, which is the double of the configured
    83.33333333333333, although the exact quotient is larger. *)
Example run_test_boundary_of_doubles :
  diff_percent boundary_baseline boundary_current 15 = Ok (500 # 6)%Q ∧
  diff_percent_double boundary_baseline boundary_current 15 =
    Ok (5864062014805333 # 70368744177664)%Q ∧
  max_allowed_of boundary_cfg = (5864062014805333 # 70368744177664)%Q ∧
  (max_allowed_of boundary_cfg < 500 # 6)%Q ∧
  (run_test (sample_env boundary_pdf) boundary_cfg boundary_world).1 = Ok 0%Z.
Proof. split_and!; vm_compute; reflexivity. Qed.

Example binary64_samples :
  binary64 (1 # 10) = (3602879701896397 # 36028797018963968)%Q ∧
  binary64 25 = 25%Q ∧
  binary64 (- (1 # 3)) = (- 6004799503160661 # 18014398509481984)%Q ∧
  binary64 9007199254740993 = 9007199254740992%Q.
Proof. split_and!; vm_compute; reflexivity. Qed.

(** [round(pct, 4)] rounds the double, not the quotient: 1/160 is 0.00625,
    its double lies above it, and the summary shows 0.0063. *)
Example round_4_of_a_double :
  round4 (1 # 160) = (62 # 10000)%Q ∧
  round_4 (binary64 (1 # 160)) = binary64 (63 # 10000).
Proof. split; vm_compute; reflexivity. Qed.

Example run_test_one_unit_above :
  (run_test (sample_env sample_pdf) strict_cfg calibrated_world).1 =
  Raise (SystemExit (PdfRegressionFailed [DiffExceeds 2 25 24])).
Proof. vm_compute. reflexivity. Qed.


(** ** Calibrate, then test *)

Lemma test_pages_all_missing store pdf bd max_allowed t ps failures summary :
  (∀ page, page ∈ ps → store !! baseline_png bd page = None) →
  test_pages store pdf bd max_allowed t ps failures summary =
  Ok (failures ++ ((λ page, MissingBaselineImage (baseline_png bd page)) <$> ps),
      summary).
Proof.
  revert failures. induction ps as [| page ps IH]; intros failures Hnone.
  - simpl. by rewrite app_nil_r.
  - rewrite test_pages_missing by (apply Hnone; by left).
    rewrite IH by (intros p Hp; apply Hnone; by right).
    by rewrite fmap_cons, <- app_assoc.
Qed.

(** C10.  [run_calibrate] creates the baseline directory before it renders
    the document and before it evaluates the text invariants: the directory
    is there when the render fails and when an invariant fails.  A calibrate
    run that aborts on a text invariant therefore leaves an empty baseline
    directory where there was none, and a later test run no longer stops
    with the baseline-directory error but records a missing baseline image
    for every configured page. *)
Theorem calibrate_abort_leaves_baseline_dir (env_down env env' : Env) (cfg : Config)
    (w : World) (e : exn) (pdf pdf' : Document) (p1 p2 : string)
    (flags' : list (string * bool)) :
  baseline_dir_of env cfg ∉ dirs w → files_in_dirs w →
  http_post env_down (endpoint cfg) (fixture cfg) = Raise e →
  http_post env (endpoint cfg) (fixture cfg) = Ok pdf →
  pdftotext pdf 1 = Some p1 → pdftotext pdf 2 = Some p2 →
  (∃ k, (k, false) ∈ text_flags (text_invariants cfg) p1 p2) →
  ROOT env' = ROOT env →
  http_post env' (endpoint cfg) (fixture cfg) = Ok pdf' →
  assert_text_invariants cfg pdf' = Ok flags' →
  (run_calibrate env_down cfg w =
     (Raise e, (mkdir (baseline_dir_of env_down cfg) w).2) ∧
   baseline_dir_of env_down cfg ∈ dirs (run_calibrate env_down cfg w).2) ∧
  (∃ failed,
     run_calibrate env cfg w =
       (Raise (SystemExit (TextInvariantFailures failed)),
        (mkdir (baseline_dir_of env cfg) w).2)) ∧
  baseline_dir_of env cfg ∈ dirs (run_calibrate env cfg w).2 ∧
  (∀ name, files (run_calibrate env cfg w).2
             !! {| parent := baseline_dir_of env cfg; name := name |} = None) ∧
  run_test env' cfg w =
    (Raise (SystemExit (BaselineDirectoryMissing (baseline_dir_of env cfg))), w) ∧
  (run_test env' cfg (run_calibrate env cfg w).2).1 =
    match pages cfg with
    | [] => Ok 0%Z
    | _ :: _ =>
        Raise (SystemExit (PdfRegressionFailed
          ((λ page, MissingBaselineImage (baseline_png (baseline_dir_of env cfg) page))
             <$> pages cfg)))
    end.
Proof.
  intros Hdir Hfiles Hdown Hpost H1 H2 [k Hk] Hroot Hpost' Hflags'.
  destruct (assert_text_invariants_raises cfg pdf p1 p2 k H1 H2 Hk) as [_ Hraise].
  assert (Hbd : baseline_dir_of env' cfg = baseline_dir_of env cfg).
  { unfold baseline_dir_of. by rewrite Hroot. }
  assert (Hempty : ∀ name, files w !! {| parent := baseline_dir_of env cfg;
                                         name := name |} = None).
  { intros name. destruct (files w !! _) as [im |] eqn:Him; [| done].
    destruct Hdir. apply (Hfiles {| parent := baseline_dir_of env cfg; name := name |}).
    by rewrite Him. }
  rewrite (run_calibrate_render_fails env_down cfg w e Hdown).
  rewrite (run_calibrate_assert_fails env cfg w pdf _ Hpost Hraise).
  split_and!.
  - done.
  - simpl. apply elem_of_union_l. by apply elem_of_singleton.
  - by eexists.
  - simpl. apply elem_of_union_l. by apply elem_of_singleton.
  - exact Hempty.
  - rewrite <- Hbd. apply run_test_dir_missing. by rewrite Hbd.
  - rewrite run_test_text_gate.
    2:{ rewrite Hbd. simpl. apply elem_of_union_l. by apply elem_of_singleton. }
    rewrite Hpost', Hflags', Hbd. cbn [snd files mkdir].
    rewrite test_pages_all_missing by (intros page _; apply Hempty).
    rewrite app_nil_l. by destruct (pages cfg).
Qed.

Lemma calibrate_abort_leaves_baseline_dir_witness :
  let env := sample_env broken_pdf in
  let env' := sample_env sample_pdf in
  let cfg := sample_cfg in
  let w := fresh_world in
  let e := SystemExit (PdfEndpointError "connection refused") in
  let p1 := "How this report works. Page 1 of 2" in
  let p2 := "How this report works, continued. Page 2 of 2" in
  let flags' := [ ("page1_footer_present", true); ("page2_footer_present", true);
                  ("page1_no_how_this_report_works", true);
                  ("page2_has_how_this_report_works", true) ] in
  ((baseline_dir_of env cfg ∉ dirs w) ∧ files_in_dirs w ∧
   http_post down_env (endpoint cfg) (fixture cfg) = Raise e ∧
   http_post env (endpoint cfg) (fixture cfg) = Ok broken_pdf ∧
   pdftotext broken_pdf 1 = Some p1 ∧ pdftotext broken_pdf 2 = Some p2 ∧
   (∃ k, (k, false) ∈ text_flags (text_invariants cfg) p1 p2) ∧
   ROOT env' = ROOT env ∧
   http_post env' (endpoint cfg) (fixture cfg) = Ok sample_pdf ∧
   assert_text_invariants cfg sample_pdf = Ok flags') ∧
  (run_calibrate down_env cfg w =
     (Raise e, (mkdir (baseline_dir_of down_env cfg) w).2) ∧
   baseline_dir_of down_env cfg ∈ dirs (run_calibrate down_env cfg w).2) ∧
  (∃ failed,
     run_calibrate env cfg w =
       (Raise (SystemExit (TextInvariantFailures failed)),
        (mkdir (baseline_dir_of env cfg) w).2)) ∧
  (baseline_dir_of env cfg ∈ dirs (run_calibrate env cfg w).2) ∧
  (∀ name, files (run_calibrate env cfg w).2
             !! {| parent := baseline_dir_of env cfg; name := name |} = None) ∧
  run_test env' cfg w =
    (Raise (SystemExit (BaselineDirectoryMissing (baseline_dir_of env cfg))), w) ∧
  (run_test env' cfg (run_calibrate env cfg w).2).1 =
    match pages cfg with
    | [] => Ok 0%Z
    | _ :: _ =>
        Raise (SystemExit (PdfRegressionFailed
          ((λ page, MissingBaselineImage (baseline_png (baseline_dir_of env cfg) page))
             <$> pages cfg)))
    end.
Proof.
  intros env env' cfg w e p1 p2 flags'.
  assert (H0 : baseline_dir_of env cfg ∉ dirs w) by apply not_elem_of_empty.
  assert (H1 : files_in_dirs w).
  { intros f [im Him]. simpl in Him. by rewrite lookup_empty in Him. }
  assert (H2 : http_post down_env (endpoint cfg) (fixture cfg) = Raise e)
    by reflexivity.
  assert (H3 : http_post env (endpoint cfg) (fixture cfg) = Ok broken_pdf)
    by reflexivity.
  assert (H4 : pdftotext broken_pdf 1 = Some p1) by reflexivity.
  assert (H5 : pdftotext broken_pdf 2 = Some p2) by reflexivity.
  assert (H6 : ∃ k, (k, false) ∈ text_flags (text_invariants cfg) p1 p2).
  { exists "page1_no_how_this_report_works". vm_compute.
    do 2 apply list_elem_of_further. apply list_elem_of_here. }
  assert (H7 : ROOT env' = ROOT env) by reflexivity.
  assert (H8 : http_post env' (endpoint cfg) (fixture cfg) = Ok sample_pdf)
    by reflexivity.
  assert (H9 : assert_text_invariants cfg sample_pdf = Ok flags') by reflexivity.
  split; [by split_and! |].
  exact (calibrate_abort_leaves_baseline_dir down_env env env' cfg w e
           broken_pdf sample_pdf p1 p2 flags' H0 H1 H2 H3 H4 H5 H6 H7 H8 H9).
Defined.

Example test_after_aborted_calibrate :
  (run_test (sample_env sample_pdf) sample_cfg
     (run_calibrate (sample_env broken_pdf) sample_cfg fresh_world).2).1 =
  Raise (SystemExit (PdfRegressionFailed
    [ MissingBaselineImage (baseline_png "/repo/tests/pdf_regression/baseline" 1);
      MissingBaselineImage (baseline_png "/repo/tests/pdf_regression/baseline" 2) ])).
Proof. vm_compute. reflexivity. Qed.

(** ** The command line *)

Lemma main_runs_workflow env mode w cfg :
  which env "pdftotext" = true → which env "pdftoppm" = true →
  config_file w = Some cfg →
  main env mode w =
  match mode with
  | calibrate => run_calibrate env cfg w
  | test => run_test env cfg w
  end.
Proof.
  intros Htext Hppm Hcfg.
  unfold main, mbind, IO_bind, require_tool, load_config.
  rewrite Htext, Hppm. cbn [mret IO_ret]. rewrite Hcfg. by destruct mode.
Qed.

Lemma main_missing_tool env mode w :
  which env "pdftotext" = false →
  main env mode w = (Raise (SystemExit (MissingRequiredTool "pdftotext")), w).
Proof.
  intros Htext. unfold main, mbind, IO_bind, require_tool. by rewrite Htext.
Qed.

Example main_calibrate_broken_render :
  exit_status (main (sample_env broken_pdf) calibrate fresh_world).1 = 1%Z ∧
  files (main (sample_env broken_pdf) calibrate fresh_world).2 = ∅.
Proof. split; vm_compute; reflexivity. Qed.

(** A calibration followed by a test of the same render passes with every
    page at 0 percent. *)
Example main_calibrate_then_test :
  let w := (main (sample_env sample_pdf) calibrate fresh_world).2 in
  (main (sample_env sample_pdf) calibrate fresh_world).1 = Ok 0%Z ∧
  (main (sample_env sample_pdf) test w).1 = Ok 0%Z ∧
  stdout (main (sample_env sample_pdf) test w).2 =
    [ PrintedCalibrated "/repo/tests/pdf_regression/baseline";
      PrintedSummary [("page_1_diff_pct", 0); ("page_2_diff_pct", 0)]%Q;
      PrintedPassed ].
Proof. split_and!; vm_compute; reflexivity. Qed.

(** * Further properties of the code *)

(** ** The image differ *)

Lemma load_Raise_inv im x y e : load im x y = Raise e → e = IndexError.
Proof.
  unfold load.
  destruct (x <? width im), (y <? height im); simpl;
    try (intros [= <-]; reflexivity).
  destruct (raster im !! (y * width im + x)); [discriminate |].
  by intros [= <-].
Qed.

Lemma max_channel_delta_sym p q : max_channel_delta p q = max_channel_delta q p.
Proof. destruct p as [[r1 g1] b1], q as [[r2 g2] b2]. unfold max_channel_delta. lia. Qed.

Lemma max_channel_delta_nonneg p q : (0 ≤ max_channel_delta p q)%Z.
Proof. destruct p as [[r1 g1] b1], q as [[r2 g2] b2]. unfold max_channel_delta. lia. Qed.

Lemma max_channel_delta_rgb8 p q : rgb8 p → rgb8 q → (max_channel_delta p q ≤ 255)%Z.
Proof.
  destruct p as [[r1 g1] b1], q as [[r2 g2] b2].
  unfold rgb8, max_channel_delta. lia.
Qed.

Lemma scan_in_order_sym a b t order c :
  scan_in_order (load a) (load b) t order c =
  scan_in_order (load b) (load a) t order c.
Proof.
  revert c. induction order as [| [x y] order IH]; intros c; [done |].
  cbn [scan_in_order].
  destruct (load a x y) as [p1 | e1] eqn:Ha, (load b x y) as [p2 | e2] eqn:Hb;
    cbn [mbind result_bind]; try done.
  - rewrite (max_channel_delta_sym p2 p1). apply IH.
  - apply load_Raise_inv in Ha, Hb. by subst.
Qed.

(** X1.  [diff_percent] is symmetric in its two images, for every threshold
    and whether or not the sizes agree. *)
Theorem diff_percent_symmetric (a b : Image) (t : Z) :
  diff_percent a b t = diff_percent b a t.
Proof.
  rewrite !diff_percent_row_major. unfold diff_percent_in_order.
  destruct (decide (size a ≠ size b)) as [Hne | Heq].
  - destruct (decide (size b ≠ size a)) as [| Heq']; [done |].
    apply dec_stable in Heq'. by destruct Hne.
  - apply dec_stable in Heq.
    destruct (decide (size b ≠ size a)) as [Hne' |]; [by destruct Hne' |].
    unfold width, height. rewrite <- Heq, scan_in_order_sym.
    by destruct (size a).
Qed.

Lemma filter_all {A} (P : A → Prop) `{!∀ x, Decision (P x)} (l : list A) :
  (∀ x, x ∈ l → P x) → filter P l = l.
Proof.
  induction l as [| x l IH]; intros HP; [done |].
  rewrite filter_cons. destruct (decide (P x)) as [| Hn].
  - f_equal. apply IH. intros z Hz. apply HP. by right.
  - destruct Hn. apply HP. by left.
Qed.

Lemma pixel_changed_in_range a b t x y :
  valid_image a → valid_image b → size a = size b →
  x < width a → y < height a →
  ∃ p1 p2, load a x y = Ok p1 ∧ load b x y = Ok p2 ∧
           raster a !! (y * width a + x) = Some p1 ∧
           raster b !! (y * width a + x) = Some p2 ∧
           pixel_changed a b t (x, y) = (t <? max_channel_delta p1 p2)%Z.
Proof.
  intros Ha Hb Hsz Hx Hy.
  destruct (load_valid a x y Ha Hx Hy) as (p1 & Hp1 & Hr1).
  destruct (load_valid b x y Hb) as (p2 & Hp2 & Hr2).
  { unfold width. by rewrite <- Hsz. }
  { unfold height. by rewrite <- Hsz. }
  exists p1, p2. split_and!; try done.
  - replace (width a) with (width b) by (unfold width; by rewrite Hsz). done.
  - unfold pixel_changed. simpl. by rewrite Hp1, Hp2.
Qed.

(** X2.  With a negative channel threshold every pixel counts as changed:
    two equal-sized images, even identical ones, are reported at 100. *)
Theorem diff_percent_negative_threshold (a b : Image) (t : Z) :
  valid_image a → valid_image b → size a = size b → (t < 0)%Z →
  ∃ d : Q, diff_percent a b t = Ok d ∧ (d == 100)%Q.
Proof.
  intros Ha Hb Hsz Ht. eexists. split; [by apply diff_percent_value |].
  rewrite filter_all.
  - rewrite length_coordinates. apply percent_full. by apply valid_image_total_pos.
  - intros [x y] [Hx Hy]%elem_of_coordinates.
    destruct (pixel_changed_in_range a b t x y Ha Hb Hsz Hx Hy)
      as (p1 & p2 & _ & _ & _ & _ & ->).
    apply Is_true_true, Z.ltb_lt.
    pose proof (max_channel_delta_nonneg p1 p2). lia.
Qed.

Lemma diff_percent_negative_threshold_witness :
  valid_image sample_current ∧ size sample_current = size sample_current ∧
  (-1 < 0)%Z ∧
  ∃ d : Q, diff_percent sample_current sample_current (-1) = Ok d ∧ (d == 100)%Q.
Proof.
  assert (Hb : valid_image sample_current) by valid_sample.
  assert (Ht : (-1 < 0)%Z) by lia.
  split; [exact Hb |]. split; [reflexivity |]. split; [exact Ht |].
  exact (diff_percent_negative_threshold sample_current sample_current (-1)
           Hb Hb eq_refl Ht).
Defined.

(** X3.  On 8-bit rasters no channel difference exceeds 255, so a channel
    threshold of 255 or more reports zero drift for any two equal-sized
    images. *)
Theorem diff_percent_saturated_threshold (a b : Image) (t : Z) :
  valid_image a → valid_image b → size a = size b →
  rgb8_image a → rgb8_image b → (255 ≤ t)%Z →
  ∃ d : Q, diff_percent a b t = Ok d ∧ (d == 0)%Q.
Proof.
  intros Ha Hb Hsz H8a H8b Ht. eexists. split; [by apply diff_percent_value |].
  rewrite filter_none.
  - apply percent_zero. by apply valid_image_total_pos.
  - intros [x y] Hch.
    assert (Hin : x < width a ∧ y < height a).
    { apply Is_true_true, pixel_changed_spec in Hch
        as (? & ? & ? & ? & ? & ? & Hl & _).
      apply load_Ok_inv in Hl. tauto. }
    destruct Hin as [Hx Hy].
    destruct (pixel_changed_in_range a b t x y Ha Hb Hsz Hx Hy)
      as (p1 & p2 & _ & _ & Hr1 & Hr2 & Heq).
    rewrite Heq in Hch. apply Is_true_true, Z.ltb_lt in Hch.
    unfold rgb8_image in H8a, H8b. rewrite Forall_lookup in H8a, H8b.
    pose proof (max_channel_delta_rgb8 p1 p2 (H8a _ _ Hr1) (H8b _ _ Hr2)). lia.
Qed.

Lemma diff_percent_saturated_threshold_witness :
  valid_image sample_baseline ∧ valid_image sample_current ∧
  size sample_baseline = size sample_current ∧
  rgb8_image sample_baseline ∧ rgb8_image sample_current ∧ (255 ≤ 255)%Z ∧
  ∃ d : Q, diff_percent sample_baseline sample_current 255 = Ok d ∧ (d == 0)%Q.
Proof.
  assert (Ha : valid_image sample_baseline) by valid_sample.
  assert (Hb : valid_image sample_current) by valid_sample.
  assert (H8a : rgb8_image sample_baseline)
    by (repeat constructor; simpl; lia).
  assert (H8b : rgb8_image sample_current)
    by (repeat constructor; simpl; lia).
  assert (Ht : (255 ≤ 255)%Z) by lia.
  split_and!; try done.
  exact (diff_percent_saturated_threshold sample_baseline sample_current 255
           Ha Hb eq_refl H8a H8b Ht).
Defined.

Lemma percent_pos c n : 0 < c → 0 < n → (0 < 100 * Q_of_nat c / Q_of_nat n)%Q.
Proof.
  intros Hc Hn. apply Qlt_shift_div_l; [by apply Q_of_nat_pos |].
  rewrite Qmult_0_l. unfold Qlt, Qmult, Q_of_nat, inject_Z. simpl. lia.
Qed.

(** X4.  On two equal-sized images the result is zero exactly when no pixel
    pair differs by more than the threshold in any channel. *)
Theorem diff_percent_zero_iff (a b : Image) (t : Z) :
  valid_image a → valid_image b → size a = size b →
  ∃ d : Q,
    diff_percent a b t = Ok d ∧
    ((d == 0)%Q ↔
     ∀ x y p1 p2, load a x y = Ok p1 → load b x y = Ok p2 →
                  (max_channel_delta p1 p2 ≤ t)%Z).
Proof.
  intros Ha Hb Hsz. eexists. split; [by apply diff_percent_value |].
  set (changed := filter (λ xy, pixel_changed a b t xy)
                    (coordinates (width a) (height a))).
  split.
  - intros Hzero x y p1 p2 Hp1 Hp2.
    destruct (Z.le_gt_cases (max_channel_delta p1 p2) t) as [| Hgt]; [done |].
    assert (Hin : (x, y) ∈ changed).
    { apply list_elem_of_filter. split.
      - unfold pixel_changed. simpl. rewrite Hp1, Hp2.
        by apply Is_true_true, Z.ltb_lt.
      - apply elem_of_coordinates. apply load_Ok_inv in Hp1. tauto. }
    assert (Hlen : 0 < length changed).
    { destruct changed; [by apply elem_of_nil in Hin | simpl; lia]. }
    pose proof (percent_pos (length changed) (width a * height a) Hlen
                  (valid_image_total_pos a Ha)) as Hpos.
    rewrite Hzero in Hpos. by apply Qlt_irrefl in Hpos.
  - intros Hall. unfold changed. rewrite filter_none.
    + apply percent_zero. by apply valid_image_total_pos.
    + intros [x y] Hch.
      apply Is_true_true, pixel_changed_spec in Hch
        as (r1 & g1 & b1 & r2 & g2 & b2 & Hp1 & Hp2 & Hlt).
      specialize (Hall x y _ _ Hp1 Hp2). unfold max_channel_delta in Hall. lia.
Qed.

Lemma diff_percent_zero_iff_witness :
  valid_image sample_baseline ∧ valid_image sample_current ∧
  size sample_baseline = size sample_current ∧
  ∃ d : Q,
    diff_percent sample_baseline sample_current 16 = Ok d ∧
    ((d == 0)%Q ↔
     ∀ x y p1 p2, load sample_baseline x y = Ok p1 → load sample_current x y = Ok p2 →
                  (max_channel_delta p1 p2 ≤ 16)%Z).
Proof.
  assert (Ha : valid_image sample_baseline) by valid_sample.
  assert (Hb : valid_image sample_current) by valid_sample.
  split_and!; try done.
  exact (diff_percent_zero_iff sample_baseline sample_current 16 Ha Hb eq_refl).
Defined.

(** X6.  On any two openable images, whatever their sizes, [diff_percent]
    raises nothing and returns a value between 0 and 100. *)
Theorem diff_percent_never_raises (a b : Image) (t : Z) :
  valid_image a → valid_image b →
  ∃ d : Q, diff_percent a b t = Ok d ∧ (0 <= d)%Q ∧ (d <= 100)%Q.
Proof.
  intros Ha Hb. destruct (decide (size a = size b)) as [Hsz | Hne].
  - eexists. split; [by apply diff_percent_value |].
    apply percent_bounds; [apply changed_le_total | by apply valid_image_total_pos].
  - exists 100%Q. split; [by apply size_mismatch_gives_100 |]. by split.
Qed.

Lemma diff_percent_never_raises_witness :
  valid_image sample_baseline ∧ valid_image sample_wide ∧
  ∃ d : Q, diff_percent sample_baseline sample_wide 15 = Ok d ∧
           (0 <= d)%Q ∧ (d <= 100)%Q.
Proof.
  assert (Ha : valid_image sample_baseline) by valid_sample.
  assert (Hb : valid_image sample_wide) by valid_sample.
  split_and!; try done.
  exact (diff_percent_never_raises sample_baseline sample_wide 15 Ha Hb).
Defined.

(** ** The text invariants *)

Lemma is_substring_empty hay : is_substring "" hay.
Proof. by exists "", hay. Qed.

Lemma append_assoc (s1 s2 s3 : string) : (s1 +:+ s2) +:+ s3 = s1 +:+ (s2 +:+ s3).
Proof. induction s1 as [| c s1 IH]; [done |]. rewrite !append_String. by rewrite IH. Qed.

Lemma is_substring_trans s1 s2 s3 :
  is_substring s1 s2 → is_substring s2 s3 → is_substring s1 s3.
Proof.
  intros (pre1 & post1 & ->) (pre2 & post2 & ->).
  exists (pre2 +:+ pre1), (post1 +:+ post2). by rewrite !append_assoc.
Qed.

Lemma assert_text_invariants_Ok_inv cfg pdf flags :
  assert_text_invariants cfg pdf = Ok flags →
  ∃ p1 p2,
    pdftotext pdf 1 = Some p1 ∧ pdftotext pdf 2 = Some p2 ∧
    flags = text_flags (text_invariants cfg) p1 p2 ∧
    is_substring (page1_footer_contains (text_invariants cfg)) p1 ∧
    is_substring (page2_footer_contains (text_invariants cfg)) p2 ∧
    ¬ is_substring (must_start_on_page2 (text_invariants cfg)) p1 ∧
    is_substring (must_start_on_page2 (text_invariants cfg)) p2.
Proof.
  unfold assert_text_invariants, extract_page_text.
  destruct (pdftotext pdf 1) as [p1 |]; [| discriminate].
  destruct (pdftotext pdf 2) as [p2 |]; [| discriminate].
  unfold mbind, result_bind. intros Hres. exists p1, p2.
  rewrite <- !str_in_spec. unfold text_flags in *.
  destruct (str_in (page1_footer_contains _) p1),
           (str_in (page2_footer_contains _) p2),
           (str_in (must_start_on_page2 _) p1),
           (str_in (must_start_on_page2 _) p2); simpl in Hres; try discriminate.
  injection Hres as <-. split_and!; done.
Qed.

(** X7.  When the configured [must_start_on_page2] marker is the empty
    string, [assert_text_invariants] succeeds on no document at all: the
    empty string occurs in every page 1, so the third check is always
    false. *)
Theorem assert_text_invariants_empty_marker (cfg : Config) (pdf : Document) :
  must_start_on_page2 (text_invariants cfg) = "" →
  ∀ flags, assert_text_invariants cfg pdf ≠ Ok flags.
Proof.
  intros Hempty flags Hok.
  apply assert_text_invariants_Ok_inv in Hok as (p1 & p2 & _ & _ & _ & _ & _ & Hno & _).
  apply Hno. rewrite Hempty. apply is_substring_empty.
Qed.

Lemma assert_text_invariants_empty_marker_witness :
  must_start_on_page2 (text_invariants empty_marker_cfg) = "" ∧
  ∀ flags, assert_text_invariants empty_marker_cfg sample_pdf ≠ Ok flags.
Proof.
  split; [reflexivity |].
  exact (assert_text_invariants_empty_marker empty_marker_cfg sample_pdf eq_refl).
Defined.

(** X8.  A failing [pdftotext] surfaces as [CalledProcessError] for the
    first page it fails on, never as a text-invariant failure: page 1 is
    extracted before page 2, and nothing is checked before both texts are
    there. *)
Theorem assert_text_invariants_tool_failure (cfg : Config) (pdf : Document) :
  pdftotext pdf 1 = None ∨ pdftotext pdf 2 = None →
  assert_text_invariants cfg pdf =
  Raise (CalledProcessError "pdftotext"
           (match pdftotext pdf 1 with Some _ => 2 | None => 1 end)%Z).
Proof.
  intros Hfail. unfold assert_text_invariants, extract_page_text.
  destruct (pdftotext pdf 1) as [p1 |]; [| done].
  destruct Hfail as [| H2]; [done |]. by rewrite H2.
Qed.

Lemma assert_text_invariants_tool_failure_witness :
  (pdftotext unreadable_pdf 1 = None ∨ pdftotext unreadable_pdf 2 = None) ∧
  assert_text_invariants sample_cfg unreadable_pdf =
  Raise (CalledProcessError "pdftotext"
           (match pdftotext unreadable_pdf 1 with Some _ => 2 | None => 1 end)%Z).
Proof.
  assert (H : pdftotext unreadable_pdf 1 = None ∨ pdftotext unreadable_pdf 2 = None)
    by (left; reflexivity).
  split; [exact H |].
  exact (assert_text_invariants_tool_failure sample_cfg unreadable_pdf H).
Defined.

(** X9.  A document whose page 1 text contains the whole text of page 2, for
    instance two pages with the same text, never passes: the marker would
    have to occur on page 2 and not on page 1. *)
Theorem assert_text_invariants_page2_within_page1 (cfg : Config) (pdf : Document)
    (p1 p2 : string) :
  pdftotext pdf 1 = Some p1 → pdftotext pdf 2 = Some p2 → is_substring p2 p1 →
  ∃ failed, assert_text_invariants cfg pdf =
            Raise (SystemExit (TextInvariantFailures failed)).
Proof.
  intros H1 H2 Hsub.
  destruct (assert_text_invariants cfg pdf) as [flags | e] eqn:Hres.
  - apply assert_text_invariants_Ok_inv in Hres
      as (q1 & q2 & Hq1 & Hq2 & _ & _ & _ & Hno & Hyes).
    rewrite H1 in Hq1. injection Hq1 as <-.
    rewrite H2 in Hq2. injection Hq2 as <-.
    destruct Hno. by apply (is_substring_trans _ p2).
  - revert Hres. unfold assert_text_invariants, extract_page_text.
    rewrite H1, H2. unfold mbind, result_bind.
    destruct (failed_keys _) as [| k ks]; [discriminate |].
    intros [= <-]. by eexists.
Qed.

Lemma assert_text_invariants_page2_within_page1_witness :
  pdftotext same_text_pdf 1 = Some "How this report works. Page 1 of 2" ∧
  pdftotext same_text_pdf 2 = Some "How this report works. Page 1 of 2" ∧
  is_substring "How this report works. Page 1 of 2"
               "How this report works. Page 1 of 2" ∧
  ∃ failed,
    assert_text_invariants sample_cfg same_text_pdf =
    Raise (SystemExit (TextInvariantFailures failed)).
Proof.
  assert (Hsub : is_substring "How this report works. Page 1 of 2"
                              "How this report works. Page 1 of 2")
    by (exists "", ""; reflexivity).
  split; [reflexivity |]. split; [reflexivity |]. split; [exact Hsub |].
  exact (assert_text_invariants_page2_within_page1 sample_cfg same_text_pdf
           _ _ eq_refl eq_refl Hsub).
Defined.

(** ** The PDF endpoint *)

(** X10.  [generate_pdf] accepts a response exactly when its status is 200
    and its [Content-Type] header contains ["application/pdf"]; a response
    without that header is refused.  Every refusal, like the two caught
    exceptions, is a [SystemExit] with an endpoint message. *)
Theorem receive_pdf_accepts (r : UrlOpen) :
  (∀ payload, receive_pdf r = Ok payload ↔
              ∃ ctype, r = Response 200 (Some ctype) payload ∧
                       is_substring "application/pdf" ctype) ∧
  ((∃ payload, receive_pdf r = Ok payload) ∨
   (∃ detail, receive_pdf r = Raise (SystemExit (PdfEndpointError detail)))).
Proof.
  split.
  - intros payload. split.
    + destruct r as [status [ctype |] body | |]; simpl; try discriminate.
      * destruct (status =? 200)%Z eqn:Hst; simpl; [| discriminate].
        destruct (str_in "application/pdf" ctype) eqn:Hct; simpl; [| discriminate].
        intros [= <-]. apply Z.eqb_eq in Hst as ->. apply str_in_spec in Hct.
        by exists ctype.
      * destruct (status =? 200)%Z; simpl; discriminate.
    + intros (ctype & -> & Hsub%str_in_spec). simpl. by rewrite Hsub.
  - destruct r as [status ctype body | |]; simpl; [| right; by eexists ..].
    destruct (_ || _); [right | left]; by eexists.
Qed.

(** ** File names *)

Lemma length_append (s1 s2 : string) :
  String.length (s1 +:+ s2) = String.length s1 + String.length s2.
Proof. induction s1 as [| c s1 IH]; [done |]. rewrite append_String. simpl. by rewrite IH. Qed.

Lemma append_inj_l (s a b : string) : s +:+ a = s +:+ b → a = b.
Proof.
  induction s as [| c s IH]; [done |]. rewrite !append_String.
  intros [= H]. by apply IH.
Qed.

Lemma append_inj_r (s a b : string) : a +:+ s = b +:+ s → a = b.
Proof.
  revert b. induction a as [| c a IH]; intros b H.
  - destruct b as [| d b]; [done |].
    apply (f_equal String.length) in H.
    rewrite append_empty, append_String in H. simpl in H.
    rewrite length_append in H. lia.
  - destruct b as [| d b].
    + apply (f_equal String.length) in H.
      rewrite append_empty, append_String in H. simpl in H.
      rewrite length_append in H. lia.
    + rewrite !append_String in H. injection H as -> H. f_equal. by apply IH.
Qed.

Lemma page_png_name_inj p q : page_png_name p = page_png_name q → p = q.
Proof.
  unfold page_png_name. intros H%append_inj_l%append_inj_r.
  by apply (inj pretty).
Qed.

(** X11.  Different page numbers never share a baseline file nor a key of
    the summary: both names determine the page. *)
Theorem page_names_determine_page (baseline_dir : string) (p q : Z) :
  (baseline_png baseline_dir p = baseline_png baseline_dir q ↔ p = q) ∧
  (summary_key p = summary_key q ↔ p = q).
Proof.
  split; (split; [| by intros ->]).
  - intros H. apply (f_equal name) in H.
    change (page_png_name p = page_png_name q) in H. by apply page_png_name_inj.
  - unfold summary_key. intros H%append_inj_l%append_inj_r.
    by apply (inj pretty).
Qed.

(** ** The calibrate workflow *)

Lemma run_calibrate_unfold env cfg w :
  run_calibrate env cfg w =
  match http_post env (endpoint cfg) (fixture cfg) with
  | Raise e => (Raise e, (mkdir (baseline_dir_of env cfg) w).2)
  | Ok pdf =>
      match assert_text_invariants cfg pdf with
      | Raise e => (Raise e, (mkdir (baseline_dir_of env cfg) w).2)
      | Ok flags =>
          match calibrate_pages pdf (baseline_dir_of env cfg) (pages cfg)
                  (mkdir (baseline_dir_of env cfg) w).2 with
          | (Raise e, w1) => (Raise e, w1)
          | (Ok _, w1) =>
              (Ok 0%Z,
               (print (PrintedCalibrated (baseline_dir_of env cfg))
                  (save_config env
                     (set_calibration cfg
                        {| generated_at_utc := utcnow env;
                           calibration_text_invariants := flags;
                           notes := calibration_notes |}) w1).2).2)
          end
      end
  end.
Proof.
  unfold run_calibrate, mbind, IO_bind, generate_pdf, lift, baseline_dir_of.
  cbn [mkdir fst snd].
  destruct (http_post env (endpoint cfg) (fixture cfg)) as [pdf | e]; [| done].
  destruct (assert_text_invariants cfg pdf) as [flags | e]; [| done].
  by destruct (calibrate_pages _ _ _ _) as [[[] | e] w1].
Qed.

Lemma calibrate_pages_frame pdf bd ps w :
  dirs (calibrate_pages pdf bd ps w).2 = dirs w ∧
  config_file (calibrate_pages pdf bd ps w).2 = config_file w ∧
  stdout (calibrate_pages pdf bd ps w).2 = stdout w ∧
  (∀ f, (∀ page, page ∈ ps → f ≠ baseline_png bd page) →
        files (calibrate_pages pdf bd ps w).2 !! f = files w !! f) ∧
  (∀ f, is_Some (files w !! f) → is_Some (files (calibrate_pages pdf bd ps w).2 !! f)).
Proof.
  revert w. induction ps as [| page ps IH]; intros w; [done |].
  cbn [calibrate_pages]. unfold mbind, IO_bind, lift, extract_page_png.
  destruct (pdftoppm pdf page) as [png |]; [| done].
  cbn [write_png].
  destruct (IH {| dirs := dirs w;
                  files := <[{| parent := bd; name := page_png_name page |} := png]>
                             (files w);
                  config_file := config_file w; stdout := stdout w |})
    as (Hd & Hc & Hs & Hother & Hkeep).
  split_and!; try done.
  - intros f Hf. rewrite Hother by (intros p Hp; apply Hf; by right).
    cbn [files]. apply lookup_insert_ne. intros <-. by apply (Hf page); [left |].
  - intros f Hsome. apply Hkeep. cbn [files].
    destruct (decide ({| parent := bd; name := page_png_name page |} = f)) as [<- |].
    + by rewrite lookup_insert_eq.
    + by rewrite lookup_insert_ne.
Qed.

Lemma calibrate_pages_written pdf bd ps w :
  (∀ page, page ∈ ps → is_Some (pdftoppm pdf page)) →
  (calibrate_pages pdf bd ps w).1 = Ok tt ∧
  ∀ page, page ∈ ps →
          files (calibrate_pages pdf bd ps w).2 !! baseline_png bd page =
          pdftoppm pdf page.
Proof.
  revert w. induction ps as [| page ps IH]; intros w Hall.
  - split; [done |]. intros page H. by apply elem_of_nil in H.
  - destruct (Hall page) as [png Hpng]; [by left |].
    cbn [calibrate_pages]. unfold mbind, IO_bind, lift, extract_page_png.
    rewrite Hpng. cbn [write_png].
    set (w1 := {| dirs := dirs w;
                  files := <[{| parent := bd; name := page_png_name page |} := png]>
                             (files w);
                  config_file := config_file w; stdout := stdout w |}).
    destruct (IH w1) as [Hok Hfiles]; [intros p Hp; apply Hall; by right |].
    destruct (calibrate_pages pdf bd ps w1) as [r w2] eqn:Hrun.
    simpl in Hok, Hfiles. subst r. split; [done |].
    intros p Hp. cbn [snd].
    destruct (decide (p ∈ ps)) as [Hin | Hnin]; [by apply Hfiles |].
    apply elem_of_cons in Hp as [-> | Hp]; [| done].
    pose proof (calibrate_pages_frame pdf bd ps w1) as (_ & _ & _ & Hother & _).
    rewrite Hrun in Hother. cbn [snd] in Hother.
    rewrite Hother, Hpng.
    + unfold w1. cbn [files]. apply lookup_insert_eq.
    + intros q Hq Heq. apply Hnin.
      apply (f_equal name) in Heq.
      change (page_png_name page = page_png_name q) in Heq.
      apply page_png_name_inj in Heq. by subst.
Qed.

Lemma calibrate_pages_app pdf bd ps1 ps2 w :
  calibrate_pages pdf bd (ps1 ++ ps2) w =
  match calibrate_pages pdf bd ps1 w with
  | (Ok _, w1) => calibrate_pages pdf bd ps2 w1
  | (Raise e, w1) => (Raise e, w1)
  end.
Proof.
  revert w. induction ps1 as [| page ps1 IH]; intros w; [done |].
  cbn [app calibrate_pages]. unfold mbind, IO_bind, lift, extract_page_png.
  destruct (pdftoppm pdf page) as [png |]; [| done].
  cbn [write_png]. apply IH.
Qed.

Lemma assert_text_invariants_all_true cfg pdf flags :
  assert_text_invariants cfg pdf = Ok flags → ∀ k v, (k, v) ∈ flags → v = true.
Proof.
  intros (p1 & p2 & _ & _ & -> & H1%str_in_spec & H2%str_in_spec & H3 & H4%str_in_spec)
    %assert_text_invariants_Ok_inv k v Hin.
  rewrite <- str_in_spec in H3. apply not_true_is_false in H3.
  unfold text_flags in Hin. rewrite H1, H2, H3, H4 in Hin. simpl in Hin.
  repeat (apply elem_of_cons in Hin as [[= _ <-] | Hin]; [done |]).
  by apply elem_of_nil in Hin.
Qed.

(** X12.  When the render is fetched, the text invariants hold and every
    configured page can be rasterised, [run_calibrate] returns 0 and leaves
    the baseline directory in place with, for every configured page, the
    raster of that page in its baseline file; it saves the configuration
    with the calibration block, whose recorded invariants are all true, and
    prints one line. *)
Theorem run_calibrate_establishes_baseline (env : Env) (cfg : Config) (w : World)
    (pdf : Document) (flags : list (string * bool)) :
  http_post env (endpoint cfg) (fixture cfg) = Ok pdf →
  assert_text_invariants cfg pdf = Ok flags →
  (∀ page, page ∈ pages cfg → is_Some (pdftoppm pdf page)) →
  ∃ w',
    run_calibrate env cfg w = (Ok 0%Z, w') ∧
    baseline_dir_of env cfg ∈ dirs w' ∧
    (∀ page, page ∈ pages cfg →
             files w' !! baseline_png (baseline_dir_of env cfg) page =
             pdftoppm pdf page) ∧
    config_file w' =
      Some (set_calibration cfg
              {| generated_at_utc := utcnow env;
                 calibration_text_invariants := flags;
                 notes := calibration_notes |}) ∧
    (∀ k v, (k, v) ∈ flags → v = true) ∧
    stdout w' = stdout w ++ [PrintedCalibrated (baseline_dir_of env cfg)].
Proof.
  intros Hpost Hflags Hall.
  rewrite run_calibrate_unfold, Hpost, Hflags.
  destruct (calibrate_pages_written pdf (baseline_dir_of env cfg) (pages cfg)
              (mkdir (baseline_dir_of env cfg) w).2 Hall) as [Hok Hfiles].
  pose proof (calibrate_pages_frame pdf (baseline_dir_of env cfg) (pages cfg)
                (mkdir (baseline_dir_of env cfg) w).2) as (Hd & _ & Hs & _ & _).
  destruct (calibrate_pages _ _ _ _) as [r w1]. simpl in Hok. subst r.
  eexists. split; [reflexivity |]. cbn [snd] in *.
  split_and!.
  - simpl. rewrite Hd. simpl.
    apply elem_of_union_r, elem_of_union_l. by apply elem_of_singleton.
  - exact Hfiles.
  - done.
  - by apply (assert_text_invariants_all_true cfg pdf).
  - simpl. by rewrite Hs.
Qed.

Lemma run_calibrate_establishes_baseline_witness :
  let env := sample_env sample_pdf in
  let flags := [ ("page1_footer_present", true); ("page2_footer_present", true);
                 ("page1_no_how_this_report_works", true);
                 ("page2_has_how_this_report_works", true) ] in
  (http_post env (endpoint sample_cfg) (fixture sample_cfg) = Ok sample_pdf ∧
   assert_text_invariants sample_cfg sample_pdf = Ok flags ∧
   (∀ page, page ∈ pages sample_cfg → is_Some (pdftoppm sample_pdf page))) ∧
  ∃ w',
    run_calibrate env sample_cfg fresh_world = (Ok 0%Z, w') ∧
    (baseline_dir_of env sample_cfg ∈ dirs w') ∧
    (∀ page, page ∈ pages sample_cfg →
             files w' !! baseline_png (baseline_dir_of env sample_cfg) page =
             pdftoppm sample_pdf page) ∧
    config_file w' =
      Some (set_calibration sample_cfg
              {| generated_at_utc := utcnow env;
                 calibration_text_invariants := flags;
                 notes := calibration_notes |}) ∧
    (∀ k v, (k, v) ∈ flags → v = true) ∧
    stdout w' = stdout fresh_world ++ [PrintedCalibrated (baseline_dir_of env sample_cfg)].
Proof.
  intros env flags.
  assert (H1 : http_post env (endpoint sample_cfg) (fixture sample_cfg) = Ok sample_pdf)
    by reflexivity.
  assert (H2 : assert_text_invariants sample_cfg sample_pdf = Ok flags) by reflexivity.
  assert (H3 : ∀ page, page ∈ pages sample_cfg → is_Some (pdftoppm sample_pdf page)).
  { intros page Hpage. simpl in Hpage.
    apply elem_of_cons in Hpage as [-> | Hpage]; [by eexists |].
    apply list_elem_of_singleton in Hpage as ->. by eexists. }
  split; [by split_and! |].
  exact (run_calibrate_establishes_baseline env sample_cfg fresh_world sample_pdf
           flags H1 H2 H3).
Defined.

(** X13.  Whatever happens, [run_calibrate] removes no directory and no
    image file, and the only image files it can change are the baseline
    files of the configured pages. *)
Theorem run_calibrate_only_adds (env : Env) (cfg : Config) (w : World) :
  dirs w ⊆ dirs (run_calibrate env cfg w).2 ∧
  (∀ f, is_Some (files w !! f) → is_Some (files (run_calibrate env cfg w).2 !! f)) ∧
  (∀ f, (∀ page, page ∈ pages cfg → f ≠ baseline_png (baseline_dir_of env cfg) page) →
        files (run_calibrate env cfg w).2 !! f = files w !! f).
Proof.
  rewrite run_calibrate_unfold.
  destruct (http_post env (endpoint cfg) (fixture cfg)) as [pdf | e];
    [| simpl; split_and!; [intros d Hd'; repeat apply elem_of_union_r; exact Hd' | done | done]].
  destruct (assert_text_invariants cfg pdf) as [flags | e];
    [| simpl; split_and!; [intros d Hd'; repeat apply elem_of_union_r; exact Hd' | done | done]].
  pose proof (calibrate_pages_frame pdf (baseline_dir_of env cfg) (pages cfg)
                (mkdir (baseline_dir_of env cfg) w).2)
    as (Hd & _ & _ & Hother & Hkeep).
  destruct (calibrate_pages _ _ _ _) as [[[] | e] w1]; cbn [snd] in *; simpl.
  - rewrite Hd. simpl. split_and!; [intros d Hd'; repeat apply elem_of_union_r; exact Hd' | exact Hkeep | exact Hother].
  - rewrite Hd. simpl. split_and!; [intros d Hd'; repeat apply elem_of_union_r; exact Hd' | exact Hkeep | exact Hother].
Qed.

(** X14.  When [pdftoppm] fails on a configured page, [run_calibrate] ends
    in [CalledProcessError] for that page with a partial baseline: the pages
    before it have already been written, while the configuration file is
    not updated and nothing is printed. *)
Theorem run_calibrate_partial_baseline (env : Env) (cfg : Config) (w : World)
    (pdf : Document) (flags : list (string * bool)) (done_pages rest : list Z)
    (page : Z) :
  http_post env (endpoint cfg) (fixture cfg) = Ok pdf →
  assert_text_invariants cfg pdf = Ok flags →
  pages cfg = done_pages ++ page :: rest →
  (∀ p, p ∈ done_pages → is_Some (pdftoppm pdf p)) →
  pdftoppm pdf page = None →
  ∃ w',
    run_calibrate env cfg w = (Raise (CalledProcessError "pdftoppm" page), w') ∧
    (∀ p, p ∈ done_pages →
          files w' !! baseline_png (baseline_dir_of env cfg) p = pdftoppm pdf p) ∧
    config_file w' = config_file w ∧ stdout w' = stdout w.
Proof.
  intros Hpost Hflags Hpages Hdone Hfail.
  rewrite run_calibrate_unfold, Hpost, Hflags, Hpages, calibrate_pages_app.
  destruct (calibrate_pages_written pdf (baseline_dir_of env cfg) done_pages
              (mkdir (baseline_dir_of env cfg) w).2 Hdone) as [Hok Hfiles].
  pose proof (calibrate_pages_frame pdf (baseline_dir_of env cfg) done_pages
                (mkdir (baseline_dir_of env cfg) w).2) as (_ & Hc & Hs & _ & _).
  destruct (calibrate_pages pdf _ done_pages _) as [r w1].
  simpl in Hok. subst r. cbn [snd] in *.
  cbn [calibrate_pages]. unfold mbind, IO_bind, lift, extract_page_png.
  rewrite Hfail. eexists. split; [reflexivity |]. by split_and!.
Qed.

Lemma run_calibrate_partial_baseline_witness :
  let env := sample_env one_page_pdf in
  let flags := [ ("page1_footer_present", true); ("page2_footer_present", true);
                 ("page1_no_how_this_report_works", true);
                 ("page2_has_how_this_report_works", true) ] in
  (http_post env (endpoint sample_cfg) (fixture sample_cfg) = Ok one_page_pdf ∧
   assert_text_invariants sample_cfg one_page_pdf = Ok flags ∧
   pages sample_cfg = [1%Z] ++ 2%Z :: [] ∧
   (∀ p, p ∈ [1%Z] → is_Some (pdftoppm one_page_pdf p)) ∧
   pdftoppm one_page_pdf 2 = None) ∧
  ∃ w',
    run_calibrate env sample_cfg calibrated_world =
      (Raise (CalledProcessError "pdftoppm" 2), w') ∧
    (∀ p, p ∈ [1%Z] →
          files w' !! baseline_png (baseline_dir_of env sample_cfg) p =
          pdftoppm one_page_pdf p) ∧
    config_file w' = config_file calibrated_world ∧
    stdout w' = stdout calibrated_world.
Proof.
  intros env flags.
  assert (H1 : http_post env (endpoint sample_cfg) (fixture sample_cfg) = Ok one_page_pdf)
    by reflexivity.
  assert (H2 : assert_text_invariants sample_cfg one_page_pdf = Ok flags)
    by reflexivity.
  assert (H3 : pages sample_cfg = [1%Z] ++ 2%Z :: []) by reflexivity.
  assert (H4 : ∀ p, p ∈ [1%Z] → is_Some (pdftoppm one_page_pdf p)).
  { intros p ->%list_elem_of_singleton. by eexists. }
  assert (H5 : pdftoppm one_page_pdf 2 = None) by reflexivity.
  split; [by split_and! |].
  exact (run_calibrate_partial_baseline env sample_cfg calibrated_world one_page_pdf
           flags [1%Z] [] 2%Z H1 H2 H3 H4 H5).
Defined.

Lemma diff_percent_double_self img t :
  valid_image img → (0 ≤ t)%Z → diff_percent_double img img t = Ok 0%Q.
Proof.
  intros Himg Ht. rewrite (diff_percent_double_value img img t Himg Himg eq_refl).
  rewrite filter_none; [done |].
  intros xy. rewrite (pixel_changed_diag img t xy Ht). simpl. tauto.
Qed.

Lemma test_pages_identical store pdf bd max_allowed t ps failures summary :
  (0 ≤ t)%Z → (0 <= max_allowed)%Q →
  (∀ page, page ∈ ps →
           ∃ img, store !! baseline_png bd page = Some img ∧
                  pdftoppm pdf page = Some img ∧ valid_image img) →
  ∃ summary',
    test_pages store pdf bd max_allowed t ps failures summary = Ok (failures, summary').
Proof.
  intros Ht Hmax. revert summary.
  induction ps as [| page ps IH]; intros summary Hall; [by eexists |].
  destruct (Hall page) as (img & Hbase & Hcur & Himg); [by left |].
  cbn [test_pages]. unfold baseline_png in Hbase. rewrite Hbase.
  unfold extract_page_png. rewrite Hcur. cbn [mbind result_bind].
  rewrite (diff_percent_double_self img t Himg Ht). cbn [mbind result_bind].
  destruct (Qlt_le_dec max_allowed 0) as [Hlt | _].
  - by apply Qle_not_lt in Hmax.
  - apply IH. intros p Hp. apply Hall. by right.
Qed.

(** X15.  A test run right after a successful calibration of the same
    render passes: with a nonnegative channel threshold and a nonnegative
    allowed percentage, every configured page is compared with its own
    raster and [run_test] returns 0. *)
Theorem calibrate_then_test_passes (env : Env) (cfg : Config) (w : World)
    (pdf : Document) (flags : list (string * bool)) :
  http_post env (endpoint cfg) (fixture cfg) = Ok pdf →
  assert_text_invariants cfg pdf = Ok flags →
  (∀ page, page ∈ pages cfg → is_Some (pdftoppm pdf page)) →
  valid_document pdf →
  (0 ≤ channel_threshold_of cfg)%Z → (0 <= max_allowed_of cfg)%Q →
  (run_calibrate env cfg w).1 = Ok 0%Z ∧
  (run_test env cfg (run_calibrate env cfg w).2).1 = Ok 0%Z.
Proof.
  intros Hpost Hflags Hall Hvalid Ht Hmax.
  destruct (calibrate_pages_written pdf (baseline_dir_of env cfg) (pages cfg)
              (mkdir (baseline_dir_of env cfg) w).2 Hall) as [Hok Hfiles].
  pose proof (calibrate_pages_frame pdf (baseline_dir_of env cfg) (pages cfg)
                (mkdir (baseline_dir_of env cfg) w).2) as (Hd & _ & _ & _ & _).
  rewrite run_calibrate_unfold, Hpost, Hflags.
  destruct (calibrate_pages _ _ _ _) as [r w1]. simpl in Hok. subst r.
  cbn [fst snd] in *. split; [done |].
  rewrite run_test_text_gate.
  2:{ simpl. rewrite Hd. simpl.
      apply elem_of_union_r, elem_of_union_l. by apply elem_of_singleton. }
  rewrite Hpost, Hflags.
  destruct (test_pages_identical (files w1) pdf (baseline_dir_of env cfg)
              (max_allowed_of cfg) (channel_threshold_of cfg) (pages cfg) [] []
              Ht Hmax) as [summary Hrun].
  { intros page Hpage. destruct (Hall page Hpage) as [img Himg].
    exists img. split_and!; [by rewrite Hfiles | done | by eapply Hvalid]. }
  cbn [files print save_config snd]. by rewrite Hrun.
Qed.

Lemma calibrate_then_test_passes_witness :
  let env := sample_env sample_pdf in
  let flags := [ ("page1_footer_present", true); ("page2_footer_present", true);
                 ("page1_no_how_this_report_works", true);
                 ("page2_has_how_this_report_works", true) ] in
  (http_post env (endpoint sample_cfg) (fixture sample_cfg) = Ok sample_pdf ∧
   assert_text_invariants sample_cfg sample_pdf = Ok flags ∧
   (∀ page, page ∈ pages sample_cfg → is_Some (pdftoppm sample_pdf page)) ∧
   valid_document sample_pdf ∧
   (0 ≤ channel_threshold_of sample_cfg)%Z ∧ (0 <= max_allowed_of sample_cfg)%Q) ∧
  (run_calibrate env sample_cfg fresh_world).1 = Ok 0%Z ∧
  (run_test env sample_cfg (run_calibrate env sample_cfg fresh_world).2).1 = Ok 0%Z.
Proof.
  intros env flags.
  assert (H1 : http_post env (endpoint sample_cfg) (fixture sample_cfg) = Ok sample_pdf)
    by reflexivity.
  assert (H2 : assert_text_invariants sample_cfg sample_pdf = Ok flags) by reflexivity.
  assert (H3 : ∀ page, page ∈ pages sample_cfg → is_Some (pdftoppm sample_pdf page)).
  { intros page Hpage. simpl in Hpage.
    apply elem_of_cons in Hpage as [-> | Hpage]; [by eexists |].
    apply list_elem_of_singleton in Hpage as ->. by eexists. }
  pose proof sample_pdf_valid as H4.
  assert (H5 : (0 ≤ channel_threshold_of sample_cfg)%Z) by (vm_compute; discriminate).
  assert (H6 : (0 <= max_allowed_of sample_cfg)%Q) by (vm_compute; discriminate).
  split; [by split_and! |].
  exact (calibrate_then_test_passes env sample_cfg fresh_world sample_pdf flags
           H1 H2 H3 H4 H5 H6).
Defined.

(** ** The test workflow *)

(** X16.  [run_test] is read-only on the file system: whatever the outcome,
    the directories, the image files and the configuration file are those it
    started with. *)
Theorem run_test_read_only (env : Env) (cfg : Config) (w : World) :
  dirs (run_test env cfg w).2 = dirs w ∧
  files (run_test env cfg w).2 = files w ∧
  config_file (run_test env cfg w).2 = config_file w.
Proof.
  destruct (decide (baseline_dir_of env cfg ∈ dirs w)) as [Hdir | Hdir].
  - rewrite (run_test_text_gate env cfg w Hdir).
    destruct (http_post env (endpoint cfg) (fixture cfg)) as [pdf | e]; [| done].
    destruct (assert_text_invariants cfg pdf) as [flags | e]; [| done].
    destruct (test_pages _ _ _ _ _ _ _ _) as [[failures summary] | e]; [| done].
    by destruct failures.
  - by rewrite (run_test_dir_missing env cfg w Hdir).
Qed.

(** X17.  In the test workflow a false text invariant aborts before any page
    is compared: the run ends in the text-invariant [SystemExit] and leaves
    the world, standard output included, exactly as it was, so no summary is
    printed, whatever the baseline holds. *)
Theorem run_test_invariant_failure (env : Env) (cfg : Config) (w : World)
    (pdf : Document) (p1 p2 : string) :
  baseline_dir_of env cfg ∈ dirs w →
  http_post env (endpoint cfg) (fixture cfg) = Ok pdf →
  pdftotext pdf 1 = Some p1 → pdftotext pdf 2 = Some p2 →
  (∃ k, (k, false) ∈ text_flags (text_invariants cfg) p1 p2) →
  ∃ failed,
    failed ≠ [] ∧
    run_test env cfg w = (Raise (SystemExit (TextInvariantFailures failed)), w).
Proof.
  intros Hdir Hpost H1 H2 [k Hk].
  destruct (assert_text_invariants_raises cfg pdf p1 p2 k H1 H2 Hk) as [Hne Hraise].
  eexists. split; [exact Hne |].
  by rewrite (run_test_text_gate env cfg w Hdir), Hpost, Hraise.
Qed.

Lemma run_test_invariant_failure_witness :
  let env := sample_env broken_pdf in
  let p1 := "How this report works. Page 1 of 2" in
  let p2 := "How this report works, continued. Page 2 of 2" in
  ((baseline_dir_of env sample_cfg ∈ dirs calibrated_world) ∧
   http_post env (endpoint sample_cfg) (fixture sample_cfg) = Ok broken_pdf ∧
   pdftotext broken_pdf 1 = Some p1 ∧ pdftotext broken_pdf 2 = Some p2 ∧
   (∃ k, (k, false) ∈ text_flags (text_invariants sample_cfg) p1 p2)) ∧
  ∃ failed,
    failed ≠ [] ∧
    run_test env sample_cfg calibrated_world =
      (Raise (SystemExit (TextInvariantFailures failed)), calibrated_world).
Proof.
  intros env p1 p2.
  assert (H0 : baseline_dir_of env sample_cfg ∈ dirs calibrated_world)
    by (vm_compute; reflexivity).
  assert (H1 : http_post env (endpoint sample_cfg) (fixture sample_cfg) = Ok broken_pdf)
    by reflexivity.
  assert (H2 : pdftotext broken_pdf 1 = Some p1) by reflexivity.
  assert (H3 : pdftotext broken_pdf 2 = Some p2) by reflexivity.
  assert (H4 : ∃ k, (k, false) ∈ text_flags (text_invariants sample_cfg) p1 p2).
  { exists "page1_no_how_this_report_works". vm_compute.
    do 2 apply list_elem_of_further. apply list_elem_of_here. }
  split; [by split_and! |].
  exact (run_test_invariant_failure env sample_cfg calibrated_world broken_pdf p1 p2
           H0 H1 H2 H3 H4).
Defined.

Lemma test_pages_app store pdf bd max_allowed t ps1 ps2 failures summary :
  test_pages store pdf bd max_allowed t (ps1 ++ ps2) failures summary =
  match test_pages store pdf bd max_allowed t ps1 failures summary with
  | Ok (failures', summary') =>
      test_pages store pdf bd max_allowed t ps2 failures' summary'
  | Raise e => Raise e
  end.
Proof.
  revert failures summary. induction ps1 as [| page ps1 IH]; intros failures summary;
    [done |].
  cbn [app test_pages].
  destruct (store !! _) as [base |]; [| apply IH].
  destruct (extract_page_png pdf page) as [cur | e]; cbn [mbind result_bind]; [| done].
  destruct (diff_percent_double base cur t) as [pct | e]; cbn [mbind result_bind]; [| done].
  apply IH.
Qed.

(** X18.  Unlike a missing baseline image, a [pdftoppm] failure on a page
    that has a baseline is a hard error: [run_test] ends in
    [CalledProcessError] for that page, the failures collected on earlier
    pages are dropped, the later pages are not looked at and nothing is
    printed. *)
Theorem run_test_rasterise_failure (env : Env) (cfg : Config) (w : World)
    (pdf : Document) (flags : list (string * bool)) (done_pages rest : list Z)
    (page : Z) :
  baseline_dir_of env cfg ∈ dirs w →
  http_post env (endpoint cfg) (fixture cfg) = Ok pdf →
  assert_text_invariants cfg pdf = Ok flags →
  pages cfg = done_pages ++ page :: rest →
  valid_store (files w) → valid_document pdf →
  pages_rasterise (files w) pdf (baseline_dir_of env cfg) done_pages →
  is_Some (files w !! baseline_png (baseline_dir_of env cfg) page) →
  pdftoppm pdf page = None →
  run_test env cfg w = (Raise (CalledProcessError "pdftoppm" page), w).
Proof.
  intros Hdir Hpost Hflags Hpages Hstore Hvalid Hras [base Hbase] Hfail.
  rewrite (run_test_text_gate env cfg w Hdir), Hpost, Hflags, Hpages, test_pages_app.
  destruct (test_pages_report (files w) pdf (baseline_dir_of env cfg)
              (max_allowed_of cfg) (channel_threshold_of cfg) done_pages [] []
              Hstore Hvalid Hras) as (summary & -> & _).
  cbn [test_pages]. unfold baseline_png in Hbase. rewrite Hbase.
  unfold extract_page_png. by rewrite Hfail.
Qed.

Lemma run_test_rasterise_failure_witness :
  let env := sample_env one_page_pdf in
  let flags := [ ("page1_footer_present", true); ("page2_footer_present", true);
                 ("page1_no_how_this_report_works", true);
                 ("page2_has_how_this_report_works", true) ] in
  ((baseline_dir_of env strict_cfg ∈ dirs calibrated_world) ∧
   http_post env (endpoint strict_cfg) (fixture strict_cfg) = Ok one_page_pdf ∧
   assert_text_invariants strict_cfg one_page_pdf = Ok flags ∧
   pages strict_cfg = [1%Z] ++ 2%Z :: [] ∧
   valid_store (files calibrated_world) ∧ valid_document one_page_pdf ∧
   pages_rasterise (files calibrated_world) one_page_pdf
     (baseline_dir_of env strict_cfg) [1%Z] ∧
   is_Some (files calibrated_world !! baseline_png (baseline_dir_of env strict_cfg) 2) ∧
   pdftoppm one_page_pdf 2 = None) ∧
  run_test env strict_cfg calibrated_world =
    (Raise (CalledProcessError "pdftoppm" 2), calibrated_world).
Proof.
  intros env flags.
  assert (H0 : baseline_dir_of env strict_cfg ∈ dirs calibrated_world)
    by (vm_compute; reflexivity).
  assert (H1 : http_post env (endpoint strict_cfg) (fixture strict_cfg) = Ok one_page_pdf)
    by reflexivity.
  assert (H2 : assert_text_invariants strict_cfg one_page_pdf = Ok flags)
    by reflexivity.
  assert (H3 : pages strict_cfg = [1%Z] ++ 2%Z :: []) by reflexivity.
  pose proof calibrated_world_valid as H4.
  assert (H5 : valid_document one_page_pdf).
  { intros p im. simpl. destruct (p =? 1)%Z; [| done].
    intros [= <-]. apply sample_current_valid. }
  assert (H6 : pages_rasterise (files calibrated_world) one_page_pdf
                 (baseline_dir_of env strict_cfg) [1%Z]).
  { intros p ->%list_elem_of_singleton _. by eexists. }
  assert (H7 : is_Some (files calibrated_world
                          !! baseline_png (baseline_dir_of env strict_cfg) 2))
    by (eexists; vm_compute; reflexivity).
  assert (H8 : pdftoppm one_page_pdf 2 = None) by reflexivity.
  split; [by split_and! |].
  exact (run_test_rasterise_failure env strict_cfg calibrated_world one_page_pdf
           flags [1%Z] [] 2%Z H0 H1 H2 H3 H4 H5 H6 H7 H8).
Defined.

Lemma dict_set_NoDup key value d : NoDup d.*1 → NoDup (dict_set key value d).*1.
Proof.
  induction d as [| [k v] d IH]; intros Hnd; simpl.
  - apply NoDup_singleton.
  - apply NoDup_cons in Hnd as [Hk Hnd].
    destruct (decide (k = key)) as [-> | Hne]; simpl.
    + by apply NoDup_cons.
    + apply NoDup_cons. split; [| by apply IH].
      rewrite dict_set_keys. intros [-> | Hin]; done.
Qed.

Lemma test_pages_shape store pdf bd max_allowed t ps failures summary failures' summary' :
  test_pages store pdf bd max_allowed t ps failures summary = Ok (failures', summary') →
  NoDup summary.*1 →
  NoDup summary'.*1 ∧
  length failures' ≤ length failures + length ps ∧
  ∀ k, k ∈ summary'.*1 →
       k ∈ summary.*1 ∨
       ∃ page, page ∈ ps ∧ is_Some (store !! baseline_png bd page) ∧ k = summary_key page.
Proof.
  revert failures summary. induction ps as [| page ps IH]; intros failures summary.
  - intros [= <- <-] Hnd. split_and!; [done | simpl; lia | by left].
  - cbn [test_pages].
    destruct (store !! {| parent := bd; name := page_png_name page |})
      as [base |] eqn:Hbase.
    + destruct (extract_page_png pdf page) as [cur | e]; cbn [mbind result_bind];
        [| discriminate].
      destruct (diff_percent_double base cur t) as [pct | e]; cbn [mbind result_bind];
        [| discriminate].
      intros Hrun Hnd.
      apply IH in Hrun as (Hnd' & Hlen & Hkeys); [| by apply dict_set_NoDup].
      split_and!; [done | |].
      * destruct (Qlt_le_dec max_allowed pct); rewrite ?length_app in Hlen;
          simpl in *; lia.
      * intros k Hk. destruct (Hkeys k Hk) as [Hin | (p & Hp & Hs & ->)].
        -- apply dict_set_keys in Hin as [-> | Hin]; [| by left].
           right. exists page. split_and!; [by left | | done].
           unfold baseline_png. by rewrite Hbase.
        -- right. exists p. split_and!; [by right | done | done].
    + intros Hrun Hnd.
      apply IH in Hrun as (Hnd' & Hlen & Hkeys); [| done].
      split_and!; [done | |].
      * rewrite length_app in Hlen. simpl in *. lia.
      * intros k Hk. destruct (Hkeys k Hk) as [Hin | (p & Hp & Hs & ->)]; [by left |].
        right. exists p. split_and!; [by right | done | done].
Qed.

(** X19.  Whenever the page loop of [run_test] completes, the summary has no
    duplicate key, even if a page is configured twice, every key of it
    belongs to a configured page that has a baseline image, and there is at
    most one failure per configured page. *)
Theorem test_pages_report_shape (store : gmap FilePath Image) (pdf : Document)
    (baseline_dir : string) (max_allowed : Q) (channel_threshold : Z) (ps : list Z)
    (failures : list Failure) (summary : list (string * Q)) :
  test_pages store pdf baseline_dir max_allowed channel_threshold ps [] [] =
    Ok (failures, summary) →
  NoDup summary.*1 ∧
  length failures ≤ length ps ∧
  ∀ k, k ∈ summary.*1 →
       ∃ page, page ∈ ps ∧ is_Some (store !! baseline_png baseline_dir page) ∧
               k = summary_key page.
Proof.
  intros Hrun.
  apply test_pages_shape in Hrun as (Hnd & Hlen & Hkeys); [| apply NoDup_nil_2].
  split_and!; [done | done |].
  intros k Hk. destruct (Hkeys k Hk) as [Hin | H]; [| done].
  by apply elem_of_nil in Hin.
Qed.

Lemma test_pages_report_shape_witness :
  test_pages (files calibrated_world) sample_pdf "/repo/tests/pdf_regression/baseline"
    24 15 [1; 2; 2; 1]%Z [] [] =
    Ok ([DiffExceeds 2 25 24; DiffExceeds 2 25 24],
        [("page_1_diff_pct", 0); ("page_2_diff_pct", 25)])%Q ∧
  NoDup ["page_1_diff_pct"; "page_2_diff_pct"] ∧
  2 ≤ 4 ∧
  ∀ k, k ∈ ["page_1_diff_pct"; "page_2_diff_pct"] →
       ∃ page, page ∈ [1; 2; 2; 1]%Z ∧
               is_Some (files calibrated_world
                          !! baseline_png "/repo/tests/pdf_regression/baseline" page) ∧
               k = summary_key page.
Proof.
  assert (Hrun : test_pages (files calibrated_world) sample_pdf
                   "/repo/tests/pdf_regression/baseline" 24 15 [1; 2; 2; 1]%Z [] [] =
                 Ok ([DiffExceeds 2 25 24; DiffExceeds 2 25 24],
                     [("page_1_diff_pct", 0); ("page_2_diff_pct", 25)])%Q)
    by (vm_compute; reflexivity).
  split; [exact Hrun |].
  exact (test_pages_report_shape (files calibrated_world) sample_pdf
           "/repo/tests/pdf_regression/baseline" 24 15 [1; 2; 2; 1]%Z _ _ Hrun).
Defined.

(** X20.  With an empty list of pages both workflows succeed without
    touching an image: calibrate returns 0 and writes no image file, and the
    test that follows returns 0 although the baseline directory holds
    nothing for it. *)
Theorem no_pages_configured (env : Env) (cfg : Config) (w : World)
    (pdf : Document) (flags : list (string * bool)) :
  pages cfg = [] →
  http_post env (endpoint cfg) (fixture cfg) = Ok pdf →
  assert_text_invariants cfg pdf = Ok flags →
  (run_calibrate env cfg w).1 = Ok 0%Z ∧
  files (run_calibrate env cfg w).2 = files w ∧
  (run_test env cfg (run_calibrate env cfg w).2).1 = Ok 0%Z ∧
  stdout (run_test env cfg (run_calibrate env cfg w).2).2 =
    stdout w ++ [PrintedCalibrated (baseline_dir_of env cfg);
                 PrintedSummary []; PrintedPassed].
Proof.
  intros Hpages Hpost Hflags.
  rewrite run_calibrate_unfold, Hpost, Hflags, Hpages. cbn [calibrate_pages].
  unfold mret, IO_ret. cbn [fst snd].
  rewrite run_test_text_gate.
  2:{ simpl. apply elem_of_union_r, elem_of_union_l. by apply elem_of_singleton. }
  rewrite Hpost, Hflags, Hpages. cbn [test_pages].
  split_and!; try done. simpl. by rewrite <- !app_assoc.
Qed.

Lemma no_pages_configured_witness :
  let cfg := {| fixture := fixture sample_cfg; endpoint := endpoint sample_cfg;
                pages := []; baseline_dir := baseline_dir sample_cfg;
                thresholds := thresholds sample_cfg;
                text_invariants := text_invariants sample_cfg;
                calibration := None |} in
  let env := sample_env sample_pdf in
  let flags := [ ("page1_footer_present", true); ("page2_footer_present", true);
                 ("page1_no_how_this_report_works", true);
                 ("page2_has_how_this_report_works", true) ] in
  (pages cfg = [] ∧
   http_post env (endpoint cfg) (fixture cfg) = Ok sample_pdf ∧
   assert_text_invariants cfg sample_pdf = Ok flags) ∧
  (run_calibrate env cfg fresh_world).1 = Ok 0%Z ∧
  files (run_calibrate env cfg fresh_world).2 = files fresh_world ∧
  (run_test env cfg (run_calibrate env cfg fresh_world).2).1 = Ok 0%Z ∧
  stdout (run_test env cfg (run_calibrate env cfg fresh_world).2).2 =
    stdout fresh_world ++ [PrintedCalibrated (baseline_dir_of env cfg);
                           PrintedSummary []; PrintedPassed].
Proof.
  intros cfg env flags.
  assert (H1 : pages cfg = []) by reflexivity.
  assert (H2 : http_post env (endpoint cfg) (fixture cfg) = Ok sample_pdf)
    by reflexivity.
  assert (H3 : assert_text_invariants cfg sample_pdf = Ok flags) by reflexivity.
  split; [by split_and! |].
  exact (no_pages_configured env cfg fresh_world sample_pdf flags H1 H2 H3).
Defined.

(** ** The command line *)

(** X22.  [main] checks for [pdftotext], then for [pdftoppm], before it does
    anything else: when one is missing it exits naming the first missing
    tool, in either mode, without reading the configuration and without
    creating the baseline directory. *)
Theorem main_requires_tools (env : Env) (mode : Mode) (w : World) :
  which env "pdftotext" = false ∨ which env "pdftoppm" = false →
  main env mode w =
  (Raise (SystemExit (MissingRequiredTool
            (if which env "pdftotext" then "pdftoppm" else "pdftotext"))), w).
Proof.
  intros Hmissing. unfold main, mbind, IO_bind, require_tool.
  destruct (which env "pdftotext"); [| done].
  destruct Hmissing as [| Hppm]; [done |]. by rewrite Hppm.
Qed.

Lemma main_requires_tools_witness :
  let env := {| ROOT := "/repo";
                which := λ tool, if decide (tool = "pdftoppm") then false else true;
                http_post := λ _ _, Ok sample_pdf;
                utcnow := "2026-01-01T00:00:00Z" |} in
  (which env "pdftotext" = false ∨ which env "pdftoppm" = false) ∧
  main env calibrate fresh_world =
  (Raise (SystemExit (MissingRequiredTool
            (if which env "pdftotext" then "pdftoppm" else "pdftotext"))),
   fresh_world).
Proof.
  intros env.
  assert (H : which env "pdftotext" = false ∨ which env "pdftoppm" = false)
    by (right; reflexivity).
  split; [exact H |].
  exact (main_requires_tools env calibrate fresh_world H).
Defined.

(** ** Tolerances *)

Lemma scan_in_order_antitone ap bp t t' order c c' r :
  (t ≤ t')%Z → c' ≤ c →
  scan_in_order ap bp t order c = Ok r →
  ∃ r', scan_in_order ap bp t' order c' = Ok r' ∧ r' ≤ r.
Proof.
  intros Ht. revert c c'. induction order as [| [x y] order IH]; intros c c' Hc.
  - intros [= <-]. by exists c'.
  - cbn [scan_in_order].
    destruct (ap x y) as [p1 |]; cbn [mbind result_bind]; [| discriminate].
    destruct (bp x y) as [p2 |]; cbn [mbind result_bind]; [| discriminate].
    apply IH.
    destruct (Z.ltb_spec t (max_channel_delta p1 p2)),
             (Z.ltb_spec t' (max_channel_delta p1 p2)); lia.
Qed.

Lemma diff_percent_double_antitone a b t t' d :
  (t ≤ t')%Z → diff_percent_double a b t = Ok d →
  ∃ d', diff_percent_double a b t' = Ok d' ∧ (d' <= d)%Q.
Proof.
  intros Ht. rewrite !diff_percent_double_row_major.
  destruct (decide (size a ≠ size b)).
  - intros [= <-]. exists 100%Q. split; [done | apply Qle_refl].
  - destruct (scan_in_order (load a) (load b) t _ 0) as [r |] eqn:Hscan;
      cbn [mbind result_bind]; [| discriminate].
    destruct (scan_in_order_antitone _ _ t t' _ 0 0 r Ht (le_n 0) Hscan)
      as (r' & -> & Hr).
    cbn [mbind result_bind].
    destruct (Nat.eqb_spec (width a * height a) 0) as [| Hpos]; [discriminate |].
    intros [= <-]. eexists. split; [done |]. apply double_percent_mono; lia.
Qed.

Lemma test_pages_prefix store pdf bd max_allowed t ps failures summary failures' summary' :
  test_pages store pdf bd max_allowed t ps failures summary = Ok (failures', summary') →
  ∃ extra, failures' = failures ++ extra.
Proof.
  revert failures summary. induction ps as [| page ps IH]; intros failures summary.
  - intros [= <- <-]. exists []. by rewrite app_nil_r.
  - cbn [test_pages]. destruct (store !! _) as [base |].
    + destruct (extract_page_png pdf page) as [cur |]; cbn [mbind result_bind];
        [| discriminate].
      destruct (diff_percent_double base cur t) as [pct |]; cbn [mbind result_bind];
        [| discriminate].
      intros (extra & ->)%IH.
      destruct (Qlt_le_dec max_allowed pct); [| by eexists].
      rewrite <- app_assoc. by eexists.
    + intros (extra & ->)%IH. rewrite <- app_assoc. by eexists.
Qed.

Lemma test_pages_loosen store pdf bd m m' t t' ps failures summary1 summary2 summary' :
  (m <= m')%Q → (t ≤ t')%Z →
  test_pages store pdf bd m t ps failures summary1 = Ok (failures, summary') →
  ∃ summary'',
    test_pages store pdf bd m' t' ps failures summary2 = Ok (failures, summary'').
Proof.
  intros Hm Ht. revert summary1 summary2.
  induction ps as [| page ps IH]; intros summary1 summary2; [by eexists |].
  cbn [test_pages]. destruct (store !! _) as [base |].
  - destruct (extract_page_png pdf page) as [cur |]; cbn [mbind result_bind];
      [| discriminate].
    destruct (diff_percent_double base cur t) as [pct |] eqn:Hpct; cbn [mbind result_bind];
      [| discriminate].
    destruct (diff_percent_double_antitone base cur t t' pct Ht Hpct) as (pct' & -> & Hle).
    cbn [mbind result_bind].
    destruct (Qlt_le_dec m pct) as [Hlt | Hge].
    + intros (extra & Heq)%test_pages_prefix.
      apply (f_equal length) in Heq. rewrite !length_app in Heq. simpl in Heq. lia.
    + destruct (Qlt_le_dec m' pct') as [Hlt' | _]; [| apply IH].
      exfalso. apply (Qlt_not_le _ _ Hlt').
      eapply Qle_trans; [exact Hle |]. by eapply Qle_trans.
  - intros (extra & Heq)%test_pages_prefix.
    apply (f_equal length) in Heq. rewrite !length_app in Heq. simpl in Heq. lia.
Qed.

(** X24.  Loosening a tolerance never turns a passing test into a failing
    one: if [run_test] returns 0, it still returns 0 after
    [max_diff_pct_per_page] or [pixel_channel_threshold] is raised, on the
    same world and the same render. *)
Theorem run_test_loosened_tolerances (env : Env) (cfg : Config) (w : World)
    (m m' : Q) (t t' : option Z) :
  (m <= m')%Q → (default 15 t ≤ default 15 t')%Z →
  (run_test env (with_thresholds cfg {| max_diff_pct_per_page := m;
                                        pixel_channel_threshold := t |}) w).1
    = Ok 0%Z →
  (run_test env (with_thresholds cfg {| max_diff_pct_per_page := m';
                                        pixel_channel_threshold := t' |}) w).1
    = Ok 0%Z.
Proof.
  intros Hm Ht.
  set (cfg1 := with_thresholds cfg _). set (cfg2 := with_thresholds cfg _).
  destruct (decide (baseline_dir_of env cfg1 ∈ dirs w)) as [Hdir | Hdir];
    [| by rewrite (run_test_dir_missing env cfg1 w Hdir)].
  rewrite (run_test_text_gate env cfg1 w Hdir), (run_test_text_gate env cfg2 w Hdir).
  change (endpoint cfg2) with (endpoint cfg1).
  change (fixture cfg2) with (fixture cfg1).
  change (assert_text_invariants cfg2) with (assert_text_invariants cfg1).
  change (baseline_dir_of env cfg2) with (baseline_dir_of env cfg1).
  change (pages cfg2) with (pages cfg1).
  change (max_allowed_of cfg1) with (binary64 m).
  change (max_allowed_of cfg2) with (binary64 m').
  change (channel_threshold_of cfg1) with (default 15%Z t).
  change (channel_threshold_of cfg2) with (default 15%Z t').
  destruct (http_post env (endpoint cfg1) (fixture cfg1)) as [pdf | e]; [| done].
  destruct (assert_text_invariants cfg1 pdf) as [flags | e]; [| done].
  destruct (test_pages (files w) pdf _ (binary64 m) _ _ [] [])
    as [[failures summary] |] eqn:Hrun; [| done].
  destruct failures; [| done]. intros _.
  destruct (test_pages_loosen _ _ _ (binary64 m) (binary64 m') _ _ _ [] [] []
              summary (binary64_mono m m' Hm) Ht Hrun) as [summary' ->].
  done.
Qed.

Lemma run_test_loosened_tolerances_witness :
  ((25 <= 30)%Q ∧ (default 15 (Some 15) ≤ default 15 None)%Z ∧
   (run_test (sample_env sample_pdf)
      (with_thresholds sample_cfg {| max_diff_pct_per_page := 25;
                                     pixel_channel_threshold := Some 15%Z |})
      calibrated_world).1 = Ok 0%Z) ∧
  (run_test (sample_env sample_pdf)
     (with_thresholds sample_cfg {| max_diff_pct_per_page := 30;
                                    pixel_channel_threshold := None |})
     calibrated_world).1 = Ok 0%Z.
Proof.
  assert (H1 : (25 <= 30)%Q) by (vm_compute; discriminate).
  assert (H2 : (default 15 (Some 15) ≤ default 15 None)%Z) by (vm_compute; discriminate).
  assert (H3 : (run_test (sample_env sample_pdf)
                  (with_thresholds sample_cfg
                     {| max_diff_pct_per_page := 25;
                        pixel_channel_threshold := Some 15%Z |})
                  calibrated_world).1 = Ok 0%Z) by (vm_compute; reflexivity).
  split; [by split_and! |].
  exact (run_test_loosened_tolerances (sample_env sample_pdf) sample_cfg
           calibrated_world 25 30 (Some 15%Z) None H1 H2 H3).
Defined.

(** ** The double and the exact quotient *)

Lemma round_to_comp u x y : (x == y)%Q → (round_to u x == round_to u y)%Q.
Proof.
  intros H. unfold round_to.
  rewrite (round_half_even_comp (x / u) (y / u)); [reflexivity |]. by rewrite H.
Qed.

Lemma binary64_exact_Z n :
  (0 ≤ n ≤ 2 ^ 53)%Z → (binary64 (inject_Z n) == inject_Z n)%Q.
Proof.
  intros [Hn0 Hn53].
  destruct (Z.eq_dec n 0) as [-> | Hne]; [done |].
  assert (Hpos : (0 < inject_Z n)%Q) by (rewrite <- (Zlt_Qlt 0); lia).
  destruct (binary64_cases (inject_Z n)) as [[H0 _] | [[_ ->] | [Hneg _]]];
    [lra | | lra].
  destruct (ilog2_spec (inject_Z n) Hpos) as [Hlo Hhi].
  set (e := ilog2 (inject_Z n)) in *.
  assert (He0 : (0 ≤ e)%Z).
  { assert (H : (2 ^ 0 < 2 ^ (e + 1))%Q).
    { eapply Qle_lt_trans; [| exact Hhi]. rewrite <- (Zle_Qle 1). lia. }
    apply pow2_lt_inv in H. lia. }
  assert (He53 : (e ≤ 53)%Z).
  { assert (H : (2 ^ e < 2 ^ (53 + 1))%Q).
    { eapply Qle_lt_trans; [exact Hlo |].
      rewrite <- (pow2_Z (53 + 1)) by lia. rewrite <- Zlt_Qlt. lia. }
    apply pow2_lt_inv in H. lia. }
  unfold ulp. fold e.
  destruct (Z.eq_dec e 53) as [He | He].
  - assert (n = 2 ^ 53)%Z as ->.
    { rewrite He, <- (pow2_Z 53) in Hlo by lia. rewrite <- Zle_Qle in Hlo. lia. }
    rewrite He.
    assert (Hgrid : (inject_Z (2 ^ 53) == inject_Z (2 ^ 52) * 2 ^ (53 - 52))%Q)
      by reflexivity.
    rewrite (round_to_comp _ _ _ Hgrid), round_to_grid by apply pow2_pos.
    by symmetry.
  - assert (Hgrid : (inject_Z n == inject_Z (n * 2 ^ (52 - e)) * 2 ^ (e - 52))%Q).
    { rewrite inject_Z_mult, (pow2_Z (52 - e)) by lia.
      rewrite <- Qmult_assoc, <- pow2_plus.
      replace (52 - e + (e - 52))%Z with 0%Z by lia. by rewrite Qmult_1_r. }
    rewrite (round_to_comp _ _ _ Hgrid), round_to_grid by apply pow2_pos.
    by symmetry.
Qed.

Lemma float_of_nat_exact n :
  (Z.of_nat n ≤ 2 ^ 53)%Z → (float_of_nat n == Q_of_nat n)%Q.
Proof. intros H. apply binary64_exact_Z. lia. Qed.

Lemma double_percent_rounds_once c n :
  c ≤ n → (100 * Z.of_nat n ≤ 2 ^ 53)%Z →
  fdiv (fmul 100 (float_of_nat c)) (float_of_nat n) =
  binary64 (100 * Q_of_nat c / Q_of_nat n).
Proof.
  intros Hc Hn. unfold fdiv, fmul. apply binary64_comp.
  assert (Hprod : (binary64 (100 * float_of_nat c) == 100 * Q_of_nat c)%Q).
  { rewrite (binary64_comp (100 * float_of_nat c) (inject_Z (100 * Z.of_nat c))).
    - rewrite binary64_exact_Z by lia. by rewrite inject_Z_mult.
    - rewrite float_of_nat_exact by lia. by rewrite inject_Z_mult. }
  by rewrite Hprod, (float_of_nat_exact n) by lia.
Qed.

Lemma scan_in_order_le ap bp t order c r :
  scan_in_order ap bp t order c = Ok r → r ≤ c + length order.
Proof.
  revert c. induction order as [| [x y] order IH]; intros c.
  - intros [= <-]. simpl. lia.
  - cbn [scan_in_order].
    destruct (ap x y) as [p1 |]; cbn [mbind result_bind]; [| discriminate].
    destruct (bp x y) as [p2 |]; cbn [mbind result_bind]; [| discriminate].
    intros Hr%IH. simpl. destruct (_ <? _)%Z; lia.
Qed.

(** X25.  For rasters of at most 2^53 / 100 pixels, about 9e13, the double
    that [diff_percent] returns is the exact quotient
    [100 * changed / total] rounded once to the nearest double: the
    conversions of the two counts and the product are exact. *)
Theorem diff_percent_double_rounds_once (a b : Image) (t : Z) (q : Q) :
  (100 * Z.of_nat (width a * height a) ≤ 2 ^ 53)%Z →
  diff_percent a b t = Ok q →
  diff_percent_double a b t = Ok (binary64 q).
Proof.
  intros Hsmall. rewrite diff_percent_row_major, diff_percent_double_row_major.
  unfold diff_percent_in_order.
  destruct (decide (size a ≠ size b)); [by intros [= <-] |].
  unfold width, height in *. destruct (size a) as [w h]. cbn [fst snd] in *.
  destruct (scan_in_order (load a) (load b) t _ 0) as [r |] eqn:Hscan;
    cbn [mbind result_bind]; [| discriminate].
  apply scan_in_order_le in Hscan. rewrite length_coordinates in Hscan.
  destruct (w * h =? 0); [discriminate |].
  intros [= <-]. f_equal. apply double_percent_rounds_once; [lia | done].
Qed.

Lemma diff_percent_double_rounds_once_witness :
  ((100 * Z.of_nat (width boundary_baseline * height boundary_baseline) ≤ 2 ^ 53)%Z ∧
   diff_percent boundary_baseline boundary_current 15 = Ok (500 # 6)%Q) ∧
  diff_percent_double boundary_baseline boundary_current 15 =
    Ok (binary64 (500 # 6)).
Proof.
  assert (H1 : (100 * Z.of_nat (width boundary_baseline * height boundary_baseline)
                ≤ 2 ^ 53)%Z) by (vm_compute; discriminate).
  assert (H2 : diff_percent boundary_baseline boundary_current 15 = Ok (500 # 6)%Q)
    by reflexivity.
  split; [by split |].
  exact (diff_percent_double_rounds_once boundary_baseline boundary_current 15
           (500 # 6) H1 H2).
Defined.

(** ** The double under the channel threshold *)

(** X26.  On the doubles that [diff_percent] returns, as on the exact
    quotients: for two openable images and thresholds [t ≤ t'] both calls
    return, the result under the larger threshold is not above the result
    under the smaller one, and neither is negative. *)
Theorem diff_percent_double_antitone_threshold (a b : Image) (t t' : Z) :
  valid_image a → valid_image b → (t ≤ t')%Z →
  ∃ d d', diff_percent_double a b t = Ok d ∧
          diff_percent_double a b t' = Ok d' ∧
          (0 <= d')%Q ∧ (d' <= d)%Q.
Proof.
  intros Ha Hb Ht.
  destruct (diff_percent_double_total a b t Ha Hb) as (d & Hd).
  destruct (diff_percent_double_antitone a b t t' d Ht Hd) as (d' & Hd' & Hle).
  exists d, d'. split_and!; [done | done | | done].
  destruct (decide (size a = size b)) as [Hsz | Hne].
  - rewrite (diff_percent_double_value a b t' Ha Hb Hsz) in Hd'.
    injection Hd' as <-. unfold fdiv, fmul. apply binary64_nonneg.
    apply Qmult_le_0_compat.
    + apply binary64_nonneg, Qmult_le_0_compat; [done |].
      apply binary64_nonneg. unfold Q_of_nat. rewrite <- (Zle_Qle 0). lia.
    + apply Qlt_le_weak, Qinv_lt_0_compat, float_of_nat_pos.
      by apply valid_image_total_pos.
  - unfold diff_percent_double in Hd'.
    destruct (decide (size a ≠ size b)); [| done]. by injection Hd' as <-.
Qed.

Lemma diff_percent_double_antitone_threshold_witness :
  (valid_image sample_baseline ∧ valid_image sample_current ∧ (15 ≤ 300)%Z) ∧
  ∃ d d', diff_percent_double sample_baseline sample_current 15 = Ok d ∧
          diff_percent_double sample_baseline sample_current 300 = Ok d' ∧
          (0 <= d')%Q ∧ (d' <= d)%Q.
Proof.
  assert (H : (15 ≤ 300)%Z) by lia.
  split; [split_and!; [apply sample_baseline_valid | apply sample_current_valid | done] |].
  exact (diff_percent_double_antitone_threshold sample_baseline sample_current 15 300
           sample_baseline_valid sample_current_valid H).
Defined.

(** X27.  On doubles too an image compared with itself under a nonnegative
    threshold gives 0.0, and the entry that [run_test] puts in the summary
    for it is 0.0. *)
Theorem diff_percent_double_identity (img : Image) (t : Z) :
  valid_image img → (0 ≤ t)%Z →
  diff_percent_double img img t = Ok 0%Q ∧ round_4 0 = 0%Q.
Proof. intros Himg Ht. split; [by apply diff_percent_double_self | done]. Qed.

Lemma diff_percent_double_identity_witness :
  (valid_image sample_baseline ∧ (0 ≤ 15)%Z) ∧
  diff_percent_double sample_baseline sample_baseline 15 = Ok 0%Q ∧ round_4 0 = 0%Q.
Proof.
  assert (H : (0 ≤ 15)%Z) by lia.
  split; [split; [apply sample_baseline_valid | done] |].
  exact (diff_percent_double_identity sample_baseline 15 sample_baseline_valid H).
Defined.



(** ** The rounded entry of the summary *)

Lemma round_half_even_near (x : Q) :
  (- (1 # 2) <= inject_Z (round_half_even x) - x)%Q ∧
  (inject_Z (round_half_even x) - x <= 1 # 2)%Q.
Proof.
  unfold round_half_even.
  pose proof (Qfloor_le x) as Hlo. pose proof (Qlt_floor x) as Hhi.
  rewrite inject_Z_plus in Hhi. change (inject_Z 1) with 1%Q in Hhi.
  destruct (Qcompare_spec (x - inject_Z (Qfloor x)) (1 # 2)) as [Heq | Hlt | Hgt].
  - destruct (Z.even (Qfloor x)); rewrite ?inject_Z_plus;
      change (inject_Z 1) with 1%Q; lra.
  - lra.
  - rewrite inject_Z_plus. change (inject_Z 1) with 1%Q. lra.
Qed.

(** X29.  The entry [round(pct, 4)] of the summary is the double nearest to
    a multiple [k / 10000] of 0.0001 that lies within 0.00005 of the double
    [pct]; when [pct] is already such a double, the entry is [pct]. *)
Theorem round_4_nearest_decimal (pct : Q) :
  ∃ k : Z,
    round_4 pct = binary64 (k # 10000) ∧
    (- (1 # 20000) <= (k # 10000) - pct)%Q ∧ ((k # 10000) - pct <= 1 # 20000)%Q ∧
    ∀ j : Z, (pct == j # 10000)%Q → k = j.
Proof.
  exists (round_half_even (pct * 10000)).
  destruct (round_half_even_near (pct * 10000)) as [Hlo Hhi].
  assert (H : ∀ z : Z, (z # 10000 == inject_Z z * (1 # 10000))%Q).
  { intros z. unfold Qeq, Qmult, inject_Z. simpl. lia. }
  split_and!.
  - done.
  - rewrite H. lra.
  - rewrite H. lra.
  - intros j Hj. rewrite <- (round_half_even_Z j).
    apply round_half_even_comp. rewrite Hj, H. field.
Qed.
